(** * RDP-Linux: the remote connection host of [start.py]

    A shallow embedding of [RemoteConnectionHost] (src/start.py): the
    credential store, the session table, the command executor, the message
    handler and the per-connection worker, with the properties of the
    session/connection subsystem stated over it. *)

From Stdlib Require Import NArith ZArith String Ascii List Lia.
From Stdlib Require Import Floats.SpecFloat DecimalString.
From stdpp Require Import base option list gmap sets.

Local Open Scope N_scope.

(** ** Python strings and bytes

    A Python [str] is a sequence of code points; lone surrogates
    (U+D800..U+DFFF) are legal in a [str] (json.loads produces them from an
    escape such as [\ud800]) but have no UTF-8 encoding.  A [bytes] value is
    a sequence of 8-bit numbers. *)

Abbreviation pystr := (list N) (only parsing).
Abbreviation pybytes := (list N) (only parsing).

(** A literal of the source, character by character. *)
Definition str (s : string) : pystr :=
  map N_of_ascii (list_ascii_of_string s).

(** ** Exceptions *)

Inductive exc_class :=
  | AttributeError
  | TypeError
  | UnicodeEncodeError
  | UnicodeDecodeError
  | JSONDecodeError
  | RecursionError
  | ConnectionResetError
  | OSError
  | TimeoutExpired      (* subprocess.TimeoutExpired *)
  | OtherException.

(** An exception object: its class and [str(e)]. *)
Record exc := Exc { exc_cls : exc_class; exc_str : pystr }.

Inductive result (A : Type) :=
  | Ret (a : A)
  | Raise (e : exc).
Arguments Ret {A} a.
Arguments Raise {A} e.

Definition is_ret {A} (r : result A) : bool :=
  match r with Ret _ => true | Raise _ => false end.

(** ** [str.encode()] : strict UTF-8 *)

Definition is_surrogate (c : N) : bool := (0xD800 <=? c) && (c <=? 0xDFFF).

Definition utf8_char (c : N) : option pybytes :=
  if c <? 0x80 then Some [c]
  else if c <? 0x800 then
    Some [N.lor 0xC0 (N.shiftr c 6); N.lor 0x80 (N.land c 0x3F)]
  else if is_surrogate c then None
  else if c <? 0x10000 then
    Some [N.lor 0xE0 (N.shiftr c 12);
          N.lor 0x80 (N.land (N.shiftr c 6) 0x3F);
          N.lor 0x80 (N.land c 0x3F)]
  else if c <? 0x110000 then
    Some [N.lor 0xF0 (N.shiftr c 18);
          N.lor 0x80 (N.land (N.shiftr c 12) 0x3F);
          N.lor 0x80 (N.land (N.shiftr c 6) 0x3F);
          N.lor 0x80 (N.land c 0x3F)]
  else None.

Fixpoint utf8_encode (s : pystr) : option pybytes :=
  match s with
  | [] => Some []
  | c :: s' =>
      match utf8_char c, utf8_encode s' with
      | Some b, Some bs => Some (b ++ bs)
      | _, _ => None
      end
  end.

Definition str_encode (s : pystr) : result pybytes :=
  match utf8_encode s with
  | Some b => Ret b
  | None =>
      Raise (Exc UnicodeEncodeError
               (str "'utf-8' codec can't encode character: surrogates not allowed"))
  end.

(** ** [hashlib.sha256] (FIPS 180-4) on 32-bit words held in [N] *)

Module SHA256.

Definition mask32 : N := 0xFFFFFFFF.
Definition w32 (x : N) : N := N.land x mask32.
Definition add32 (x y : N) : N := w32 (x + y).
Definition rotr (n x : N) : N :=
  N.lor (N.shiftr x n) (w32 (N.shiftl x (32 - n))).
Definition not32 (x : N) : N := N.lxor x mask32.

Definition Ch (e f g : N) : N :=
  N.lxor (N.land e f) (N.land (not32 e) g).
Definition Maj (a b c : N) : N :=
  N.lxor (N.lxor (N.land a b) (N.land a c)) (N.land b c).
Definition Sigma0 (a : N) : N :=
  N.lxor (N.lxor (rotr 2 a) (rotr 13 a)) (rotr 22 a).
Definition Sigma1 (e : N) : N :=
  N.lxor (N.lxor (rotr 6 e) (rotr 11 e)) (rotr 25 e).
Definition sigma0 (x : N) : N :=
  N.lxor (N.lxor (rotr 7 x) (rotr 18 x)) (N.shiftr x 3).
Definition sigma1 (x : N) : N :=
  N.lxor (N.lxor (rotr 17 x) (rotr 19 x)) (N.shiftr x 10).

(** The constants of FIPS 180-4, from their definition: the first 32 bits
    of the fractional parts of the cube roots (round constants) and of the
    square roots (initial hash value) of the first primes. *)
Definition is_prime (n : nat) : bool :=
  forallb (fun d => negb (Nat.eqb (Nat.modulo n d) 0)) (seq 2 (n - 2)).

Definition primes (count : nat) : list N :=
  map N.of_nat (firstn count (filter is_prime (seq 2 310))).

(** The integer cube root of a number below 2^(3 * bits). *)
Fixpoint cube_root (bits : nat) (n r : N) : N :=
  match bits with
  | O => r
  | S b =>
      let c := r + N.shiftl 1 (N.of_nat b) in
      cube_root b n (if c * c * c <=? n then c else r)
  end.

Definition K : list N :=
  Eval vm_compute in
    map (fun p => w32 (cube_root 36 (N.shiftl p 96) 0)) (primes 64).

Definition H0 : list N :=
  Eval vm_compute in
    map (fun p => w32 (N.sqrt (N.shiftl p 64))) (primes 8).

(** Big-endian bytes of a number, [n] of them. *)
Fixpoint be_bytes (n : nat) (x : N) : pybytes :=
  match n with
  | O => []
  | S n' => be_bytes n' (N.shiftr x 8) ++ [N.land x 0xFF]
  end.

Definition be_word (bs : pybytes) : N :=
  fold_left (fun acc b => N.lor (N.shiftl acc 8) (N.land b 0xFF)) bs 0.

(** Padding: the bit 1, zeros up to 56 mod 64, the bit length on 64 bits. *)
Definition pad (msg : pybytes) : pybytes :=
  let len := length msg in
  let zeros := ((119 - len mod 64) mod 64)%nat in
  msg ++ [0x80] ++ repeat 0 zeros ++ be_bytes 8 (8 * N.of_nat len).

Fixpoint words (n : nat) (bs : pybytes) : list N :=
  match n with
  | O => []
  | S n' => be_word (firstn 4 bs) :: words n' (skipn 4 bs)
  end.

(** One round: [win] holds the sixteen schedule words W[t..t+15]. *)
Definition round (st : list N * list N) (k : N) : list N * list N :=
  let '(win, v) := st in
  let w := nth 0 win 0 in
  let wnew :=
    add32 (add32 (sigma1 (nth 14 win 0)) (nth 9 win 0))
          (add32 (sigma0 (nth 1 win 0)) w) in
  match v with
  | [a; b; c; d; e; f; g; h] =>
      let t1 := add32 (add32 (add32 h (Sigma1 e)) (add32 (Ch e f g) k)) w in
      let t2 := add32 (Sigma0 a) (Maj a b c) in
      (tl win ++ [wnew], [add32 t1 t2; a; b; c; add32 d t1; e; f; g])
  | _ => (win, v)
  end.

Definition compress (h : list N) (block : pybytes) : list N :=
  let '(_, v) := fold_left round K (words 16 block, h) in
  map (fun p => add32 (fst p) (snd p)) (combine h v).

Fixpoint blocks (n : nat) (h : list N) (bs : pybytes) : list N :=
  match n with
  | O => h
  | S n' => blocks n' (compress h (firstn 64 bs)) (skipn 64 bs)
  end.

Definition digest (msg : pybytes) : pybytes :=
  let p := pad msg in
  concat (map (be_bytes 4) (blocks (length p / 64) H0 p)).

End SHA256.

(** ** Lowercase hexadecimal ([hexdigest], [binascii.hexlify]) *)

Definition hex_digit (d : N) : N :=
  if d <? 10 then 48 + d else 87 + d.

Definition hex_byte (b : N) : pystr :=
  [hex_digit (N.land (N.shiftr b 4) 0xF); hex_digit (N.land b 0xF)].

Definition hexlify (bs : pybytes) : pystr := concat (map hex_byte bs).

(** ** JSON values as [json.loads] builds them

    [None], [bool], [int], [float], [str], [list] and [dict] with [str]
    keys.  [float] is kept as its IEEE-754 value ([spec_float]). *)

Set Warnings "-register-all".
Inductive json :=
  | JNull
  | JBool (b : bool)
  | JInt (z : Z)
  | JFloat (f : spec_float)
  | JStr (s : pystr)
  | JList (l : list json)
  | JDict (d : gmap pystr json).
Set Warnings "register-all".

(** A dict literal of the source, keys in the order they are written. *)
Abbreviation pydict := (list (pystr * json)) (only parsing).

(** [m.get(k)] : the value, or [None]. *)
Definition dict_get (m : gmap pystr json) (k : string) : json :=
  default JNull (m !! str k).

(** Python truth value ([if x], [not x]). *)
Definition truthy (v : json) : bool :=
  match v with
  | JNull => false
  | JBool b => b
  | JInt z => negb (Z.eqb z 0)
  | JFloat (S754_zero _) => false
  | JFloat _ => true
  | JStr s => negb (bool_decide (s = []))
  | JList l => match l with [] => false | _ => true end
  | JDict d => negb (bool_decide (d = ∅))
  end.

(** [v == "literal"] *)
Definition eq_str (v : json) (s : string) : bool :=
  match v with
  | JStr s' => bool_decide (s' = str s)
  | _ => false
  end.

Definition hashable (k : json) : bool :=
  match k with
  | JList _ | JDict _ => false
  | _ => true
  end.

Definition unhashable_error : exc :=
  Exc TypeError (str "unhashable type").

(** [k in d] for a dict whose keys are all [str]: a [str] is looked up, any
    other hashable value equals no key, a list or a dict cannot be hashed. *)
Definition dict_contains {V} (d : gmap pystr V) (k : json) : result bool :=
  match k with
  | JStr s => Ret (bool_decide (is_Some (d !! s)))
  | JList _ | JDict _ => Raise unhashable_error
  | _ => Ret false
  end.

(** ** External collaborators *)

(** A [subprocess.Popen] object, by what its methods do when called in the
    order [_execute_command] calls them. *)
Record process := {
  communicate_timeout : result (pystr * pystr); (* communicate(timeout=30) *)
  returncode : Z;
  kill : result unit;
  communicate : result (pystr * pystr)          (* communicate() after kill() *)
}.

Definition is_TimeoutExpired (e : exc) : bool :=
  match exc_cls e with
  | TimeoutExpired => true
  | _ => false
  end.

(** [communicate(timeout=30)] raises [subprocess.TimeoutExpired] exactly
    when the process has not terminated by the deadline. *)
Definition timed_out (p : process) : bool :=
  match communicate_timeout p with
  | Raise e => is_TimeoutExpired e
  | Ret _ => false
  end.

Record platform := {
  popen : nat -> json -> result process;
    (* subprocess.Popen(command, shell=True, ...), by number of earlier spawns *)
  urandom : nat -> N;              (* the byte stream of the random source *)
  json_loads : pystr -> result json;
  gethostname : pystr;
  sys_platform : pystr;
  sys_version : pystr;
  isoformat_now : nat -> pystr;    (* datetime.now().isoformat(), by clock read *)
  time_time : nat -> spec_float;   (* time.time(), by clock read *)
  format_value : json -> pystr     (* str(v), as an f-string formats it *)
}.

(** ** The server object and the world around it *)

Record client_info := {
  socket : nat;
  address : pystr * Z;
  connected_at : spec_float;
  authenticated : bool
}.

(** The attributes of [RemoteConnectionHost] set by [__init__]. *)
Record host := {
  host_addr : pystr;
  port : Z;
  server_socket : option nat;
  running : bool;
  clients : gmap pystr client_info;
  auth_tokens : gmap pystr json;     (* token -> the username object *)
  credentials : gmap pystr pystr
}.

(** What the server does to the outside, and what the outside does to it:
    sockets it has closed, sockets whose peer is gone, frames sent, commands
    handed to [Popen], random bytes and clock reads consumed, the worker
    threads alive (by socket, with the peer address), and the requests
    handed to the message handler (by client id). *)
Record world := {
  closed : gset nat;
  broken : gset nat;
  outbox : list (nat * pydict);             (* newest first *)
  spawned : list json;                      (* newest first *)
  drawn : nat;
  ticks : nat;
  workers : gmap nat (pystr * Z);
  handled : list (pystr * gmap pystr json)  (* newest first *)
}.

Record state := { self : host; env : world }.

Definition set_running (b : bool) (h : host) : host :=
  {| host_addr := host_addr h; port := port h;
     server_socket := server_socket h; running := b;
     clients := clients h; auth_tokens := auth_tokens h;
     credentials := credentials h |}.

Definition set_clients (c : gmap pystr client_info) (h : host) : host :=
  {| host_addr := host_addr h; port := port h;
     server_socket := server_socket h; running := running h;
     clients := c; auth_tokens := auth_tokens h;
     credentials := credentials h |}.

Definition set_auth_tokens (t : gmap pystr json) (h : host) : host :=
  {| host_addr := host_addr h; port := port h;
     server_socket := server_socket h; running := running h;
     clients := clients h; auth_tokens := t;
     credentials := credentials h |}.

Definition set_closed (x : gset nat) (w : world) : world :=
  {| closed := x; broken := broken w; outbox := outbox w; spawned := spawned w;
     drawn := drawn w; ticks := ticks w; workers := workers w; handled := handled w |}.

Definition set_broken (x : gset nat) (w : world) : world :=
  {| closed := closed w; broken := x; outbox := outbox w; spawned := spawned w;
     drawn := drawn w; ticks := ticks w; workers := workers w; handled := handled w |}.

Definition set_outbox (x : list (nat * pydict)) (w : world) : world :=
  {| closed := closed w; broken := broken w; outbox := x; spawned := spawned w;
     drawn := drawn w; ticks := ticks w; workers := workers w; handled := handled w |}.

Definition set_spawned (x : list json) (w : world) : world :=
  {| closed := closed w; broken := broken w; outbox := outbox w; spawned := x;
     drawn := drawn w; ticks := ticks w; workers := workers w; handled := handled w |}.

Definition set_drawn (x : nat) (w : world) : world :=
  {| closed := closed w; broken := broken w; outbox := outbox w; spawned := spawned w;
     drawn := x; ticks := ticks w; workers := workers w; handled := handled w |}.

Definition set_ticks (x : nat) (w : world) : world :=
  {| closed := closed w; broken := broken w; outbox := outbox w; spawned := spawned w;
     drawn := drawn w; ticks := x; workers := workers w; handled := handled w |}.

Definition set_workers (x : gmap nat (pystr * Z)) (w : world) : world :=
  {| closed := closed w; broken := broken w; outbox := outbox w; spawned := spawned w;
     drawn := drawn w; ticks := ticks w; workers := x; handled := handled w |}.

Definition set_handled (x : list (pystr * gmap pystr json)) (w : world) : world :=
  {| closed := closed w; broken := broken w; outbox := outbox w; spawned := spawned w;
     drawn := drawn w; ticks := ticks w; workers := workers w; handled := x |}.

(** ** Computations: state passing with exceptions

    A raised exception keeps the state changes made before it. *)

Definition M (A : Type) : Type := state -> result A * state.

Definition ret {A} (a : A) : M A := fun s => (Ret a, s).
Definition raise {A} (e : exc) : M A := fun s => (Raise e, s).
Definition lift {A} (r : result A) : M A := fun s => (r, s).

Definition bind {A B} (m : M A) (k : A -> M B) : M B :=
  fun s =>
    match m s with
    | (Ret a, s') => k a s'
    | (Raise e, s') => (Raise e, s')
    end.

Notation "'do' x <- m ; k" := (bind m (fun x => k))
  (at level 10, x name, m at level 100, k at level 200).

(** [try: body / except <catches> as e: handler e] *)
Definition try_except {A} (body : M A) (catches : exc -> bool)
    (handler : exc -> M A) : M A :=
  fun s =>
    match body s with
    | (Ret a, s') => (Ret a, s')
    | (Raise e, s') => if catches e then handler e s' else (Raise e, s')
    end.

(** [try: body / finally: fin] *)
Definition try_finally {A} (body : M A) (fin : M unit) : M A :=
  fun s =>
    match body s with
    | (r, s') =>
        match fin s' with
        | (Ret _, s'') => (r, s'')
        | (Raise e, s'') => (Raise e, s'')
        end
    end.

Definition get_self : M host := fun s => (Ret (self s), s).
Definition get_env : M world := fun s => (Ret (env s), s).
Definition modify_self (f : host -> host) : M unit :=
  fun s => (Ret tt, {| self := f (self s); env := env s |}).
Definition modify_env (f : world -> world) : M unit :=
  fun s => (Ret tt, {| self := self s; env := f (env s) |}).

Definition except_Exception (e : exc) : bool := true.

(** ** [RemoteConnectionHost]: credential store, session table, executor,
    message handler *)

(** [d[k]] / [k in d] for a dict with [str] keys: the value if [k] is a
    key; hashing a list or a dict raises [TypeError]. *)
Definition dict_lookup {V} (d : gmap pystr V) (k : json) : result (option V) :=
  match k with
  | JStr s => Ret (d !! s)
  | JList _ | JDict _ => Raise unhashable_error
  | _ => Ret None
  end.

Definition no_encode : exc :=
  Exc AttributeError (str "object has no attribute 'encode'").

(** [hashlib.sha256(password.encode()).hexdigest()] *)
Definition _hash_password (password : json) : result pystr :=
  match password with
  | JStr s =>
      match str_encode s with
      | Ret b => Ret (hexlify (SHA256.digest b))
      | Raise e => Raise e
      end
  | _ => Raise no_encode
  end.

(** The credentials [__init__] installs. *)
Definition default_credentials : gmap pystr pystr :=
  match _hash_password (JStr (str "admin123")),
        _hash_password (JStr (str "user123")) with
  | Ret a, Ret u => <[str "user" := u]> (<[str "admin" := a]> ∅)
  | _, _ => ∅
  end.

Definition init_host (h : pystr) (p : Z) : host :=
  {| host_addr := h; port := p; server_socket := None; running := false;
     clients := ∅; auth_tokens := ∅; credentials := default_credentials |}.

Definition init_world : world :=
  {| closed := ∅; broken := ∅; outbox := []; spawned := []; drawn := 0;
     ticks := 0; workers := ∅; handled := [] |}.

Definition init_state : state :=
  {| self := init_host (str "0.0.0.0") 3389; env := init_world |}.

Section Host.
Context (P : platform).

(** [secrets.token_bytes(n)]: the next [n] bytes of the random source. *)
Definition token_bytes (n : nat) : M pybytes :=
  fun s =>
    (Ret (map (fun i => N.land (urandom P i) 0xFF) (seq (drawn (env s)) n)),
     {| self := self s;
        env := set_drawn (drawn (env s) + n) (env s) |}).

(** [secrets.token_hex(32)] *)
Definition _generate_token : M pystr :=
  do b <- token_bytes 32;
  ret (hexlify b).

Definition _authenticate (username password : json) : M (option pystr) :=
  do hashed_password <- lift (_hash_password password);
  do h <- get_self;
  do stored <- lift (dict_lookup (credentials h) username);
  if bool_decide (stored = Some hashed_password) then
    do token <- _generate_token;
    do _ <- modify_self
              (fun h => set_auth_tokens (<[token := username]> (auth_tokens h)) h);
    ret (Some token)
  else ret None.

Definition _validate_token (token : json) : M bool :=
  do h <- get_self;
  lift (dict_contains (auth_tokens h) token).

Definition _execute_command (command : json) : M (pystr * pystr * Z) :=
  try_except
    (do w <- get_env;
     do _ <- modify_env (set_spawned (command :: spawned w));
     do process <- lift (popen P (length (spawned w)) command);
     try_except
       (do r <- lift (communicate_timeout process);
        ret (fst r, snd r, returncode process))
       is_TimeoutExpired
       (fun _ =>
          do _ <- lift (kill process);
          do r <- lift (communicate process);
          ret (fst r, str "Command timed out", 1%Z)))
    except_Exception
    (fun e => ret ([], str "Error executing command: " ++ exc_str e, 1%Z)).

(** [datetime.now().isoformat()] *)
Definition now_isoformat : M pystr :=
  fun s =>
    (Ret (isoformat_now P (ticks (env s))),
     {| self := self s; env := set_ticks (S (ticks (env s))) (env s) |}).

Definition error_response (message : pystr) : pydict :=
  [(str "type", JStr (str "error")); (str "message", JStr message)].

Definition _handle_client_message (message : gmap pystr json) : M pydict :=
  let msg_type := dict_get message "type" in
  if eq_str msg_type "auth" then
    let username := dict_get message "username" in
    let password := dict_get message "password" in
    do token <- _authenticate username password;
    match token with
    | Some t =>
        if truthy (JStr t) then
          ret [(str "type", JStr (str "auth_response"));
               (str "success", JBool true);
               (str "token", JStr t);
               (str "message", JStr (str "Authentication successful"))]
        else
          ret [(str "type", JStr (str "auth_response"));
               (str "success", JBool false);
               (str "message", JStr (str "Authentication failed"))]
    | None =>
        ret [(str "type", JStr (str "auth_response"));
             (str "success", JBool false);
             (str "message", JStr (str "Authentication failed"))]
    end
  else if eq_str msg_type "command" then
    let token := dict_get message "token" in
    do valid <- _validate_token token;
    if negb valid then ret (error_response (str "Invalid or expired token"))
    else
      let command := dict_get message "command" in
      if negb (truthy command) then
        ret (error_response (str "No command provided"))
      else
        do r <- _execute_command command;
        let '(stdout, stderr, rc) := r in
        ret [(str "type", JStr (str "command_response"));
             (str "stdout", JStr stdout);
             (str "stderr", JStr stderr);
             (str "returncode", JInt rc)]
  else if eq_str msg_type "system_info" then
    let token := dict_get message "token" in
    do valid <- _validate_token token;
    if negb valid then ret (error_response (str "Invalid or expired token"))
    else
      do t <- now_isoformat;
      ret [(str "type", JStr (str "system_info_response"));
           (str "hostname", JStr (gethostname P));
           (str "platform", JStr (sys_platform P));
           (str "python_version", JStr (sys_version P));
           (str "current_time", JStr t)]
  else
    ret (error_response
           (str "Unknown message type: " ++ format_value P msg_type)).

End Host.

(** ** [bytes.decode()] : strict UTF-8, and [str.strip()] *)

Definition cont (b : N) : bool := (0x80 <=? b) && (b <=? 0xBF).
Definition payload (b : N) : N := N.land b 0x3F.

Fixpoint utf8_decode (bs : pybytes) : option pystr :=
  match bs with
  | [] => Some []
  | b0 :: r0 =>
      if b0 <? 0x80 then cons b0 <$> utf8_decode r0
      else if (0xC2 <=? b0) && (b0 <=? 0xDF) then
        match r0 with
        | b1 :: r1 =>
            if cont b1 then
              cons (N.lor (N.shiftl (N.land b0 0x1F) 6) (payload b1))
                <$> utf8_decode r1
            else None
        | _ => None
        end
      else if (0xE0 <=? b0) && (b0 <=? 0xEF) then
        match r0 with
        | b1 :: b2 :: r2 =>
            let lo := if b0 =? 0xE0 then 0xA0 else 0x80 in
            let hi := if b0 =? 0xED then 0x9F else 0xBF in
            if (lo <=? b1) && (b1 <=? hi) && cont b2 then
              cons (N.lor (N.shiftl (N.land b0 0x0F) 12)
                      (N.lor (N.shiftl (payload b1) 6) (payload b2)))
                <$> utf8_decode r2
            else None
        | _ => None
        end
      else if (0xF0 <=? b0) && (b0 <=? 0xF4) then
        match r0 with
        | b1 :: b2 :: b3 :: r3 =>
            let lo := if b0 =? 0xF0 then 0x90 else 0x80 in
            let hi := if b0 =? 0xF4 then 0x8F else 0xBF in
            if (lo <=? b1) && (b1 <=? hi) && cont b2 && cont b3 then
              cons (N.lor (N.shiftl (N.land b0 0x07) 18)
                      (N.lor (N.shiftl (payload b1) 12)
                         (N.lor (N.shiftl (payload b2) 6) (payload b3))))
                <$> utf8_decode r3
            else None
        | _ => None
        end
      else None
  end.

Definition bytes_decode (bs : pybytes) : result pystr :=
  match utf8_decode bs with
  | Some s => Ret s
  | None =>
      Raise (Exc UnicodeDecodeError (str "'utf-8' codec can't decode byte"))
  end.

(** The characters [str.isspace] accepts. *)
Definition isspace (c : N) : bool :=
  ((0x09 <=? c) && (c <=? 0x0D)) || ((0x1C <=? c) && (c <=? 0x20))
  || (c =? 0x85) || (c =? 0xA0) || (c =? 0x1680)
  || ((0x2000 <=? c) && (c <=? 0x200A))
  || (c =? 0x2028) || (c =? 0x2029) || (c =? 0x202F) || (c =? 0x205F)
  || (c =? 0x3000).

Fixpoint lstrip (s : pystr) : pystr :=
  match s with
  | c :: s' => if isspace c then lstrip s' else s
  | [] => []
  end.

Definition strip (s : pystr) : pystr := rev (lstrip (rev (lstrip s))).

(** ** The per-connection worker and the supervisor *)

Inductive recv_result :=
  | Recv (data : pybytes)        (* [recv(4096)] returned [data] *)
  | RecvRaises (e : exc).

Inductive loop_status :=
  | Looping    (* back at the loop test, about to call [recv] *)
  | Exited.    (* left [_handle_client]; the [finally] clause has run *)

Definition is_JSONDecodeError (e : exc) : bool :=
  match exc_cls e with
  | JSONDecodeError => true
  | _ => false
  end.

(** [message.get(...)] needs a dict. *)
Definition as_dict (v : json) : result (gmap pystr json) :=
  match v with
  | JDict d => Ret d
  | _ => Raise (Exc AttributeError (str "object has no attribute 'get'"))
  end.

Definition decimal (z : Z) : pystr :=
  str (NilEmpty.string_of_int (Z.to_int z)).

(** [f"{client_address[0]}:{client_address[1]}"] *)
Definition client_id_of (client_address : pystr * Z) : pystr :=
  fst client_address ++ str ":" ++ decimal (snd client_address).

Section Worker.
Context (P : platform).

(** [client_socket.send(json.dumps(frame).encode() + b'\n')] *)
Definition send (sock : nat) (frame : pydict) : M unit :=
  do w <- get_env;
  if bool_decide (sock ∈ closed w) then
    raise (Exc OSError (str "Bad file descriptor"))
  else if bool_decide (sock ∈ broken w) then
    raise (Exc ConnectionResetError (str "Connection reset by peer"))
  else modify_env (set_outbox ((sock, frame) :: outbox w)).

Definition close (sock : nat) : M unit :=
  modify_env (fun w => set_closed ({[sock]} ∪ closed w) w).

(** [time.time()] *)
Definition time_now : M spec_float :=
  fun s =>
    (Ret (time_time P (ticks (env s))),
     {| self := self s; env := set_ticks (S (ticks (env s))) (env s) |}).

Definition welcome_msg (server_time : pystr) : pydict :=
  [(str "type", JStr (str "welcome"));
   (str "message", JStr (str "Connected to Remote Host Server"));
   (str "server_time", JStr server_time)].

(** The body of [while self.running:], one pass.  [true]: back to the loop
    test; [false]: [break]. *)
Definition loop_body (sock : nat) (client_id : pystr) (r : recv_result)
    : M bool :=
  do data <- lift (match r with Recv d => Ret d | RecvRaises e => Raise e end);
  if bool_decide (data = []) then ret false
  else
    do _ <-
      try_except
        (do text <- lift (bytes_decode data);
         do v <- lift (json_loads P (strip text));
         do message <- lift (as_dict v);
         do _ <- modify_env
                   (fun w => set_handled ((client_id, message) :: handled w) w);
         do response <- _handle_client_message P message;
         send sock response)
        is_JSONDecodeError
        (fun _ => send sock (error_response (str "Invalid JSON format")));
    ret true.

(** The [finally] clause of [_handle_client]; the thread ends after it. *)
Definition finally_clause (sock : nat) (client_id : pystr) : M unit :=
  do _ <- close sock;
  do _ <- modify_self (fun h => set_clients (delete client_id (clients h)) h);
  modify_env (fun w => set_workers (delete sock (workers w)) w).

(** Both [except] clauses only log; then the [finally] clause runs. *)
Definition guarded (sock : nat) (client_id : pystr) (body : M loop_status)
    : M loop_status :=
  do st <- try_except body except_Exception (fun _ => ret Exited);
  match st with
  | Looping => ret Looping
  | Exited => do _ <- finally_clause sock client_id; ret Exited
  end.

(** [_handle_client] up to the first loop test: register, send welcome. *)
Definition worker_start (sock : nat) (client_address : pystr * Z)
    : M loop_status :=
  let client_id := client_id_of client_address in
  do _ <- modify_env
            (fun w => set_workers (<[sock := client_address]> (workers w)) w);
  do t <- time_now;
  do _ <- modify_self
            (fun h =>
               set_clients
                 (<[client_id :=
                      {| socket := sock; address := client_address;
                         connected_at := t; authenticated := false |}]>
                    (clients h)) h);
  guarded sock client_id
    (do now <- now_isoformat P;
     do _ <- send sock (welcome_msg now);
     ret Looping).

(** One pass of the loop, from the loop test on. *)
Definition worker_iteration (sock : nat) (client_address : pystr * Z)
    (r : recv_result) : M loop_status :=
  let client_id := client_id_of client_address in
  guarded sock client_id
    (do h <- get_self;
     if running h then
       do continue <- loop_body sock client_id r;
       ret (if continue then Looping else Exited)
     else ret Exited).

(** [_handle_client] on the results of its successive [recv] calls; it is
    [Looping] (blocked in [recv]) when they are used up. *)
Fixpoint worker_loop (sock : nat) (client_address : pystr * Z)
    (inputs : list recv_result) : M loop_status :=
  match inputs with
  | [] => ret Looping
  | r :: rest =>
      do st <- worker_iteration sock client_address r;
      match st with
      | Looping => worker_loop sock client_address rest
      | Exited => ret Exited
      end
  end.

Definition _handle_client (sock : nat) (client_address : pystr * Z)
    (inputs : list recv_result) : M loop_status :=
  do st <- worker_start sock client_address;
  match st with
  | Looping => worker_loop sock client_address inputs
  | Exited => ret Exited
  end.

(** [start], up to the accept loop: bind and listen on [sock]. *)
Definition start (sock : nat) : M unit :=
  modify_self
    (fun h =>
       {| host_addr := host_addr h; port := port h;
          server_socket := Some sock; running := true;
          clients := clients h; auth_tokens := auth_tokens h;
          credentials := credentials h |}).

(** [stop]: clear the flag, close every registered socket, close the
    listening socket. *)
Definition stop : M unit :=
  do _ <- modify_self (set_running false);
  do h <- get_self;
  do _ <- modify_env
            (fun w =>
               set_closed
                 (list_to_set (socket <$> (snd <$> map_to_list (clients h)))
                    ∪ closed w) w);
  match server_socket h with
  | Some s => close s
  | None => ret tt
  end.

End Worker.

(** ** The system: the accept loop, the workers and [stop], interleaved

    Each transition is one atomic action of one thread: the listener
    starting, a connection accepted (its worker registers and sends the
    welcome frame), one pass of a worker's loop, a peer going away, [stop]. *)

Inductive step (P : platform) : state -> state -> Prop :=
  | step_start sock s :
      running (self s) = false ->
      server_socket (self s) = None ->
      step P s (snd (start sock s))
  | step_accept sock addr s :
      running (self s) = true ->
      workers (env s) !! sock = None ->
      sock ∉ closed (env s) ->
      step P s (snd (worker_start P sock addr s))
  | step_recv sock addr r s :
      workers (env s) !! sock = Some addr ->
      step P s (snd (worker_iteration P sock addr r s))
  | step_peer_gone sock s :
      step P s {| self := self s;
                  env := set_broken ({[sock]} ∪ broken (env s)) (env s) |}
  | step_stop s :
      step P s (snd (stop s)).

Definition reachable (P : platform) (s : state) : Prop :=
  rtc (step P) init_state s.

(** ** A concrete platform, for running the model on examples *)

Module Scenario.

Definition quote : pystr := [34].

(** The text [json.dumps] gives for an object of string fields. *)
Fixpoint fields_text (fields : list (string * string)) : pystr :=
  match fields with
  | [] => []
  | [(k, v)] => quote ++ str k ++ quote ++ str ": " ++ quote ++ str v ++ quote
  | (k, v) :: rest =>
      quote ++ str k ++ quote ++ str ": " ++ quote ++ str v ++ quote
      ++ str ", " ++ fields_text rest
  end.

Definition object_text (fields : list (string * string)) : pystr :=
  str "{" ++ fields_text fields ++ str "}".

Definition object_value (fields : list (string * string)) : json :=
  JDict (list_to_map (map (fun kv => (str (fst kv), JStr (str (snd kv)))) fields)).

Definition zeros64 : string :=
  "0000000000000000000000000000000000000000000000000000000000000000".

(** The frames the examples send. *)
Definition frames : list (list (string * string)) :=
  [ [("type", "auth"); ("username", "admin"); ("password", "admin123")];
    [("type", "auth"); ("username", "user"); ("password", "user123")];
    [("type", "auth"); ("username", "admin")];
    [("type", "system_info"); ("token", zeros64)];
    [("type", "command"); ("token", zeros64); ("command", "echo hi")] ]%string.

(** [json.loads] on those frames; anything else is taken as malformed. *)
Definition loads (text : pystr) : result json :=
  match find (fun f => bool_decide (object_text f = text)) frames with
  | Some f => Ret (object_value f)
  | None => Raise (Exc JSONDecodeError (str "Expecting value"))
  end.

(** A process that prints ["partial"], then hangs. *)
Definition slow_process : process :=
  {| communicate_timeout := Raise (Exc TimeoutExpired (str "timed out after 30 seconds"));
     returncode := (-9)%Z;
     kill := Ret tt;
     communicate := Ret (str "partial", []) |}.

Definition echo_process : process :=
  {| communicate_timeout := Ret (str "hi" ++ [10], []);
     returncode := 0%Z;
     kill := Ret tt;
     communicate := Ret ([], []) |}.

Definition spawn (n : nat) (command : json) : result process :=
  match command with
  | JStr c =>
      if bool_decide (c = str "echo hi") then Ret echo_process
      else if bool_decide (c = str "echo partial; sleep 60") then Ret slow_process
      else Raise (Exc OSError (str "[Errno 2] No such file or directory: '/bin/sh'"))
  | _ => Raise (Exc TypeError (str "expected str, bytes or os.PathLike object"))
  end.

(** A random source that keeps returning zero bytes. *)
Definition platform : platform :=
  {| popen := spawn;
     urandom := fun _ => 0;
     json_loads := loads;
     gethostname := str "host";
     sys_platform := str "linux";
     sys_version := str "3.11.2";
     isoformat_now := fun _ => str "2024-01-01T00:00:00";
     time_time := fun _ => S754_zero false;
     format_value := fun _ => str "None" |}.

Definition request (fields : list (string * string)) : gmap pystr json :=
  match object_value fields with
  | JDict d => d
  | _ => ∅
  end.

Definition frame (fields : list (string * string)) : pybytes :=
  match utf8_encode (object_text fields) with
  | Some b => b ++ [10]
  | None => []
  end.

Definition peer : pystr * Z := (str "10.0.0.7", 50000%Z).

End Scenario.

(** ** Notions used in the statements *)

(** The token [_generate_token] returns next: the hex encoding of the next
    32 bytes of the random source. *)
Definition next_token (P : platform) (s : state) : pystr :=
  hexlify (map (fun i => N.land (urandom P i) 0xFF) (seq (drawn (env s)) 32)).

(** [username] is registered and its stored hash is the hash of [password]. *)
Definition valid_pair (h : host) (username password : pystr) : Prop :=
  exists d, _hash_password (JStr password) = Ret d
            /\ credentials h !! username = Some d.

(** [password.encode()] succeeds: no lone surrogate in it. *)
Definition encodable (password : pystr) : Prop := is_Some (utf8_encode password).

(** [token] is a key of the session table. *)
Definition validates (s : state) (token : json) : Prop :=
  dict_contains (auth_tokens (self s)) token = Ret true.

Definition keys (d : pydict) : list pystr := map fst d.

Definition auth_success (token : pystr) : pydict :=
  [(str "type", JStr (str "auth_response"));
   (str "success", JBool true);
   (str "token", JStr token);
   (str "message", JStr (str "Authentication successful"))].

Definition auth_failure : pydict :=
  [(str "type", JStr (str "auth_response"));
   (str "success", JBool false);
   (str "message", JStr (str "Authentication failed"))].

(** No registry entry has its [authenticated] flag set. *)
Definition flags_clear (s : state) : Prop :=
  forall cid info,
    clients (self s) !! cid = Some info -> authenticated info = false.

(** A request already handled on connection [cid] carried a token that is
    valid now. *)
Definition carried_valid_token (s : state) (cid : pystr) : Prop :=
  exists m, (cid, m) ∈ handled (env s) /\ validates s (dict_get m "token").

(** The connection is gone: socket closed, registry entry deleted, worker
    ended. *)
Definition connection_closed (s : state) (sock : nat) (cid : pystr) : Prop :=
  sock ∈ closed (env s)
  /\ clients (self s) !! cid = None
  /\ workers (env s) !! sock = None.

(** A computation leaves an observation of the state as it was. *)
Definition preserves {T A : Type} (obs : state -> T) (m : M A) : Prop :=
  forall s, obs (snd (m s)) = obs s.

Definition registry (s : state) : gmap pystr client_info := clients (self s).

(** A run of the scenario: the server listens on socket 3, a client connects
    on socket 7, authenticates as admin, then asks for the system info. *)
Module Trace.
Import Scenario.

Definition auth_admin : list (string * string) :=
  [("type", "auth"); ("username", "admin"); ("password", "admin123")]%string.
Definition auth_user : list (string * string) :=
  [("type", "auth"); ("username", "user"); ("password", "user123")]%string.
Definition system_info : list (string * string) :=
  [("type", "system_info"); ("token", zeros64)]%string.

Definition listening : state := snd (start 3 init_state).
Definition connected : state :=
  snd (worker_start platform 7 peer listening).
Definition logged_in : state :=
  snd (worker_iteration platform 7 peer (Recv (frame auth_admin)) connected).
Definition queried : state :=
  snd (worker_iteration platform 7 peer (Recv (frame system_info)) logged_in).

Definition cid : pystr := client_id_of peer.
End Trace.

(** ** [get_server_info]

    The registry is a [gmap], which keeps no insertion order: the client
    ids are listed in the map's own order. *)

Definition get_server_info (h : host) : pydict :=
  [(str "host", JStr (host_addr h));
   (str "port", JInt (port h));
   (str "running", JBool (running h));
   (str "active_clients", JInt (Z.of_nat (size (clients h))));
   (str "clients", JList (JStr <$> (map_to_list (clients h)).*1))].

(** ** Further notions used in the statements *)

(** A lowercase hexadecimal digit. *)
Definition hex_char (c : N) : bool :=
  ((48 <=? c) && (c <=? 57)) || ((97 <=? c) && (c <=? 102)).

(** Sixty-four lowercase hexadecimal digits. *)
Definition hex64 (t : pystr) : Prop :=
  length t = 64%nat /\ forallb hex_char t = true.

(** The response to a [command] request that was run. *)
Definition command_response (r : pystr * pystr * Z) : pydict :=
  let '(stdout, stderr, rc) := r in
  [(str "type", JStr (str "command_response"));
   (str "stdout", JStr stdout);
   (str "stderr", JStr stderr);
   (str "returncode", JInt rc)].

(** What [_handle_client_message] has no access to: the registry, the
    running flag, the credentials, the listening socket, the sockets' state,
    the frames sent, the workers and the log of handled requests. *)
Definition outside_handler (s : state) :=
  (clients (self s), running (self s), credentials (self s),
   server_socket (self s), host_addr (self s), port (self s),
   closed (env s), broken (env s), outbox (env s), workers (env s),
   handled (env s)).

(** The parts of the state the session table's, the audit's and the
    registry's invariants are about. *)
Definition session_view (s : state) :=
  (auth_tokens (self s), credentials (self s)).

Definition audit_view (s : state) :=
  (auth_tokens (self s), handled (env s), spawned (env s)).

Definition connection_view (s : state) :=
  (clients (self s), workers (env s)).

(** Every state a computation ends in is related to the one it started in. *)
Definition maintains {A} (R : relation state) (m : M A) : Prop :=
  forall s, R s (snd (m s)).

(** The state with the request logged, as [_handle_client_message] finds it. *)
Definition logged (cid : pystr) (m : gmap pystr json) (s : state) : state :=
  {| self := self s;
     env := set_handled ((cid, m) :: handled (env s)) (env s) |}.


(** How the credential store and the session table may change: the store
    not at all; the table keeps its keys, and an entry that is new maps a
    [hex64] token to the name of a registered user. *)
Definition sessions_grow : relation state :=
  fun s s' =>
    credentials (self s') = credentials (self s)
    /\ (forall t, is_Some (auth_tokens (self s) !! t) ->
                  is_Some (auth_tokens (self s') !! t))
    /\ (forall t v,
          auth_tokens (self s') !! t = Some v ->
          auth_tokens (self s) !! t = Some v
          \/ (hex64 t
              /\ exists u, v = JStr u /\ is_Some (credentials (self s) !! u))).

(** The command was asked for by a logged request of type [command] whose
    token is valid now. *)
Definition authorised (s : state) (command : json) : Prop :=
  exists cid m,
    (cid, m) ∈ handled (env s)
    /\ eq_str (dict_get m "type") "command" = true
    /\ dict_get m "command" = command
    /\ validates s (dict_get m "token").

(** How the logs may change: tokens stay valid, logged requests stay
    logged, and a command handed to [Popen] since is [authorised]. *)
Definition audited : relation state :=
  fun s s' =>
    (forall token, validates s token -> validates s' token)
    /\ (forall x, x ∈ handled (env s) -> x ∈ handled (env s'))
    /\ (forall c, c ∈ spawned (env s') ->
                  c ∈ spawned (env s) \/ authorised s' c).

(** Every registry entry is filed under the id of its peer address, and
    the worker of its socket is alive and serves that peer. *)
Definition registered_workers (s : state) : Prop :=
  forall cid info,
    clients (self s) !! cid = Some info ->
    cid = client_id_of (address info)
    /\ workers (env s) !! socket info = Some (address info).



(** More runs of the scenario, and two more platforms. *)
Module Cases.

Definition command : list (string * string) :=
  [("type", "command"); ("token", Scenario.zeros64);
   ("command", "echo hi")]%string.

Definition echo_request : gmap pystr json := Scenario.request command.

(** The logged-in client runs a command. *)
Definition ran : state :=
  snd (worker_iteration Scenario.platform 7 Scenario.peer
         (Recv (Scenario.frame command)) Trace.logged_in).

(** The server is stopped while the client is logged in. *)
Definition stopped : state := snd (stop Trace.logged_in).

(** The logged-in client's peer goes away. *)
Definition peer_gone : state :=
  {| self := self Trace.logged_in;
     env := set_broken ({[7%nat]} ∪ broken (env Trace.logged_in))
              (env Trace.logged_in) |}.

(** A frame that is not JSON. *)
Definition garbage : pybytes := str "{oops" ++ [10].

(** A command whose output is not valid UTF-8: with [text=True],
    [communicate] raises while decoding it. *)
Definition binary_process : process :=
  {| communicate_timeout :=
       Raise (Exc UnicodeDecodeError
                (str "'utf-8' codec can't decode byte 0xff in position 0"));
     returncode := 0%Z;
     kill := Ret tt;
     communicate := Ret ([], []) |}.

Definition binary_platform : platform :=
  {| popen := fun _ _ => Ret binary_process;
     urandom := fun _ => 0;
     json_loads := Scenario.loads;
     gethostname := str "host";
     sys_platform := str "linux";
     sys_version := str "3.11.2";
     isoformat_now := fun _ => str "2024-01-01T00:00:00";
     time_time := fun _ => S754_zero false;
     format_value := fun _ => str "None" |}.

(** A platform whose [json.loads] finds a JSON array in every frame. *)
Definition array_platform : platform :=
  {| popen := Scenario.spawn;
     urandom := fun _ => 0;
     json_loads := fun _ => Ret (JList []);
     gethostname := str "host";
     sys_platform := str "linux";
     sys_version := str "3.11.2";
     isoformat_now := fun _ => str "2024-01-01T00:00:00";
     time_time := fun _ => S754_zero false;
     format_value := fun _ => str "None" |}.

End Cases.

(** * Properties *)

(** ** The primitives agree with the reference implementations *)

Example sha256_constants :
  (nth 0 SHA256.K 0, nth 63 SHA256.K 0, nth 0 SHA256.H0 0, nth 7 SHA256.H0 0)
  = (0x428a2f98, 0xc67178f2, 0x6a09e667, 0x5be0cd19).
Proof. reflexivity. Qed.

Example sha256_abc :
  hexlify (SHA256.digest (str "abc"))
  = str "ba7816bf8f01cfea414140de5dae2223b00361a396177a9cb410ff61f20015ad".
Proof. vm_compute. reflexivity. Qed.

Example sha256_empty :
  hexlify (SHA256.digest [])
  = str "e3b0c44298fc1c149afbf4c8996fb92427ae41e4649b934ca495991b7852b855".
Proof. vm_compute. reflexivity. Qed.

Example sha256_two_blocks :
  hexlify (SHA256.digest
    (str "abcdbcdecdefdefgefghfghighijhijkijkljklmklmnlmnomnopnopq"))
  = str "248d6a61d20638b8e5c026930c3e6039a33ce45964ff2167f6ecedd419db06c1".
Proof. vm_compute. reflexivity. Qed.

Example sha256_admin123 :
  _hash_password (JStr (str "admin123"))
  = Ret (str "240be518fabd2724ddb6f04eeb1da5967448d7e831c08c8fa822809f74c720a9").
Proof. vm_compute. reflexivity. Qed.

Example utf8_roundtrip :
  (utf8_encode [0x41; 0xE9; 0x20AC; 0x1F600] ≫= utf8_decode)
  = Some [0x41; 0xE9; 0x20AC; 0x1F600].
Proof. reflexivity. Qed.

Example utf8_rejects_surrogate : utf8_encode [0xD800] = None.
Proof. reflexivity. Qed.

Example utf8_rejects_ff : utf8_decode [0xFF; 10] = None.
Proof. reflexivity. Qed.

Example strip_frame : strip (str " {} " ++ [10]) = str "{}".
Proof. reflexivity. Qed.

Lemma str_app (a b : string) : str (a ++ b) = str a ++ str b.
Proof.
  unfold str. induction a as [|c a IH]; simpl; [reflexivity|].
  f_equal. exact IH.
Qed.

Lemma hexlify_length (bs : list N) : length (hexlify bs) = (2 * length bs)%nat.
Proof.
  unfold hexlify. induction bs as [|b bs IH]; simpl; [reflexivity|].
  rewrite IH. lia.
Qed.

Lemma next_token_length P s : length (next_token P s) = 64%nat.
Proof.
  unfold next_token. rewrite hexlify_length, length_map, length_seq. reflexivity.
Qed.

Lemma next_token_truthy P s : truthy (JStr (next_token P s)) = true.
Proof.
  pose proof (next_token_length P s) as H.
  destruct (next_token P s); [discriminate H|].
  unfold truthy. rewrite bool_decide_eq_false_2; [reflexivity | discriminate].
Qed.

(** ** The command executor *)

Section Executor.
Context (P : platform).
Implicit Types (s : state) (command : json) (p : process).

Lemma execute_command_spawned s command :
  spawned (env (snd (_execute_command P command s)))
  = command :: spawned (env s).
Proof.
  unfold _execute_command, try_except, bind, get_env, modify_env, lift.
  simpl.
  destruct (popen P _ command) as [p|e]; simpl; [|reflexivity].
  destruct (communicate_timeout p) as [r|e]; simpl; [reflexivity|].
  destruct (is_TimeoutExpired e); simpl; [|reflexivity].
  destruct (kill p) as [[]|e1]; simpl; [|reflexivity].
  destruct (communicate p) as [r|e2]; reflexivity.
Qed.

(** The executor never raises: every exception of the spawn facility is
    turned into a result. *)
Lemma execute_command_returns s command :
  exists out err rc, fst (_execute_command P command s) = Ret (out, err, rc).
Proof.
  unfold _execute_command, try_except, bind, get_env, modify_env, lift.
  simpl.
  destruct (popen P _ command) as [p|e]; simpl; [|eauto].
  destruct (communicate_timeout p) as [r|e]; simpl; [eauto|].
  destruct (is_TimeoutExpired e); simpl; [|eauto].
  destruct (kill p) as [[]|e1]; simpl; [|eauto].
  destruct (communicate p) as [r|e2]; simpl; eauto.
Qed.

(** C7. When the spawn facility raises, [_execute_command] returns
    normally, with exit code 1, empty stdout and a non-empty diagnostic
    (the exception text after a fixed prefix) as stderr. *)
Theorem execute_spawn_failure s command e :
  popen P (length (spawned (env s))) command = Raise e ->
  fst (_execute_command P command s)
  = Ret ([], str "Error executing command: " ++ exc_str e, 1%Z)
  /\ str "Error executing command: " ++ exc_str e <> [].
Proof.
  intros H. split.
  - unfold _execute_command, try_except, bind, get_env, modify_env, lift.
    simpl. rewrite H. reflexivity.
  - discriminate.
Qed.

(** C1 (as the code has it). On a timeout the exit code is 1; when
    [kill()] and the [communicate()] after it succeed, stderr is
    "Command timed out" and stdout is what that [communicate()] collected:
    the partial output is kept, the process's own stderr is dropped. *)
Theorem execute_timeout s command p :
  popen P (length (spawned (env s))) command = Ret p ->
  timed_out p = true ->
  (exists out err, fst (_execute_command P command s) = Ret (out, err, 1%Z))
  /\ (forall o e,
        kill p = Ret tt -> communicate p = Ret (o, e) ->
        fst (_execute_command P command s)
        = Ret (o, str "Command timed out", 1%Z)).
Proof.
  intros H T. unfold timed_out in T.
  unfold _execute_command, try_except, bind, get_env, modify_env, lift.
  simpl. rewrite H. simpl.
  destruct (communicate_timeout p) as [r|e0]; [discriminate|].
  rewrite T. split.
  - destruct (kill p) as [[]|ek]; simpl; [|eauto].
    destruct (communicate p) as [[o e]|ec]; simpl; eauto.
  - intros o e Hk Hc. rewrite Hk, Hc. reflexivity.
Qed.

End Executor.

Lemma execute_spawn_failure_witness :
  fst (_execute_command Scenario.platform (JStr (str "ls")) init_state)
  = Ret ([], str "Error executing command: "
             ++ str "[Errno 2] No such file or directory: '/bin/sh'", 1%Z)
  /\ str "Error executing command: "
     ++ str "[Errno 2] No such file or directory: '/bin/sh'" <> [].
Proof.
  apply (execute_spawn_failure Scenario.platform init_state (JStr (str "ls"))
           (Exc OSError (str "[Errno 2] No such file or directory: '/bin/sh'"))).
  reflexivity.
Defined.

Lemma execute_timeout_witness :
  (exists out err,
      fst (_execute_command Scenario.platform
             (JStr (str "echo partial; sleep 60")) init_state)
      = Ret (out, err, 1%Z))
  /\ (forall o e,
        kill Scenario.slow_process = Ret tt ->
        communicate Scenario.slow_process = Ret (o, e) ->
        fst (_execute_command Scenario.platform
               (JStr (str "echo partial; sleep 60")) init_state)
        = Ret (o, str "Command timed out", 1%Z)).
Proof.
  apply (execute_timeout Scenario.platform init_state
           (JStr (str "echo partial; sleep 60")) Scenario.slow_process);
    reflexivity.
Defined.

(** C1 as stated fails: a process that printed "partial" before the
    deadline times out, and "partial" is the stdout of the result. *)
Lemma execute_timeout_stdout_not_empty :
  Scenario.spawn 0 (JStr (str "echo partial; sleep 60"))
    = Ret Scenario.slow_process
  /\ timed_out Scenario.slow_process = true
  /\ fst (_execute_command Scenario.platform
            (JStr (str "echo partial; sleep 60")) init_state)
     = Ret (str "partial", str "Command timed out", 1%Z)
  /\ fst (_execute_command Scenario.platform
            (JStr (str "echo partial; sleep 60")) init_state)
     <> Ret ([], str "Command timed out", 1%Z).
Proof.
  split; [reflexivity|]. split; [reflexivity|].
  split; [reflexivity|]. discriminate.
Qed.

(** ** Session table and authentication *)

Lemma eq_str_true v (lit : string) : eq_str v lit = true -> v = JStr (str lit).
Proof.
  destruct v; simpl; try discriminate.
  intros H. apply bool_decide_eq_true_1 in H. congruence.
Qed.

Lemma dict_contains_lookup {V} (d : gmap (list N) V) k :
  dict_contains d k = Ret true <-> exists v, dict_lookup d k = Ret (Some v).
Proof.
  destruct k; simpl; split; try (intros [? ?]); try discriminate.
  - intros H. injection H as H. apply bool_decide_eq_true_1 in H.
    destruct H as [v Hv]. exists v. congruence.
  - injection H as H. f_equal. apply bool_decide_eq_true_2. eauto.
Qed.

Section Sessions.
Context (P : platform).
Implicit Types (s : state) (username password : json).

Lemma authenticate_success s username password d :
  _hash_password password = Ret d ->
  dict_lookup (credentials (self s)) username = Ret (Some d) ->
  _authenticate P username password s
  = (Ret (Some (next_token P s)),
     {| self := set_auth_tokens
                  (<[next_token P s := username]> (auth_tokens (self s)))
                  (self s);
        env := set_drawn (drawn (env s) + 32) (env s) |}).
Proof.
  intros Hh Hl.
  unfold _authenticate, bind, lift, get_self. rewrite Hh. simpl. rewrite Hl.
  rewrite bool_decide_eq_true_2 by reflexivity. reflexivity.
Qed.

Lemma authenticate_failure s username password d stored :
  _hash_password password = Ret d ->
  dict_lookup (credentials (self s)) username = Ret stored ->
  stored <> Some d ->
  _authenticate P username password s = (Ret None, s).
Proof.
  intros Hh Hl Hne.
  unfold _authenticate, bind, lift, get_self. rewrite Hh. simpl. rewrite Hl.
  rewrite bool_decide_eq_false_2 by exact Hne. reflexivity.
Qed.

Lemma authenticate_hash_raises s username password e :
  _hash_password password = Raise e ->
  _authenticate P username password s = (Raise e, s).
Proof.
  intros Hh. unfold _authenticate, bind, lift. rewrite Hh. reflexivity.
Qed.

(** C5 (as the code has it). A successful authentication inserts the hex
    encoding of the next 32 random bytes, whatever the table holds:
    entries under other keys are kept, an entry under that key is
    replaced; nothing is overwritten when the key is fresh. *)
Theorem session_creation s username password d :
  _hash_password password = Ret d ->
  dict_lookup (credentials (self s)) username = Ret (Some d) ->
  let r := _authenticate P username password s in
  let token := next_token P s in
  fst r = Ret (Some token)
  /\ auth_tokens (self (snd r)) = <[token := username]> (auth_tokens (self s))
  /\ (forall t, t <> token ->
        auth_tokens (self (snd r)) !! t = auth_tokens (self s) !! t)
  /\ (auth_tokens (self s) !! token = None ->
      forall t v, auth_tokens (self s) !! t = Some v ->
                  auth_tokens (self (snd r)) !! t = Some v).
Proof.
  intros Hh Hl r token. subst r token.
  rewrite (authenticate_success _ _ _ _ Hh Hl). simpl.
  split; [reflexivity|]. split; [reflexivity|]. split.
  - intros t Ht. apply lookup_insert_ne. congruence.
  - intros Hfresh t v Ht. rewrite lookup_insert_ne; [exact Ht|].
    intros Heq. subst t. congruence.
Qed.



End Sessions.

(** *** The scenario, evaluated *)

Lemma logged_in_session :
  auth_tokens (self Trace.logged_in) !! str Scenario.zeros64
  = Some (JStr (str "admin")).
Proof. vm_compute. reflexivity. Qed.

Lemma session_creation_witness :
  let s := init_state in
  let r := _authenticate Scenario.platform
             (JStr (str "admin")) (JStr (str "admin123")) s in
  let token := next_token Scenario.platform s in
  fst r = Ret (Some token)
  /\ auth_tokens (self (snd r))
     = <[token := JStr (str "admin")]> (auth_tokens (self s))
  /\ (forall t, t <> token ->
        auth_tokens (self (snd r)) !! t = auth_tokens (self s) !! t)
  /\ (auth_tokens (self s) !! token = None ->
      forall t v, auth_tokens (self s) !! t = Some v ->
                  auth_tokens (self (snd r)) !! t = Some v).
Proof.
  apply (session_creation Scenario.platform init_state
           (JStr (str "admin")) (JStr (str "admin123"))
           (str "240be518fabd2724ddb6f04eeb1da5967448d7e831c08c8fa822809f74c720a9"));
    vm_compute; reflexivity.
Defined.

(** C5 as stated fails: with a random source that repeats itself, the token
    issued to [user] is the live token of [admin], whose entry is
    overwritten. *)
Lemma session_creation_reuses_live_token :
  let s := Trace.logged_in in
  let r := _authenticate Scenario.platform
             (JStr (str "user")) (JStr (str "user123")) s in
  auth_tokens (self s) !! str Scenario.zeros64 = Some (JStr (str "admin"))
  /\ fst r = Ret (Some (str Scenario.zeros64))
  /\ auth_tokens (self (snd r)) !! str Scenario.zeros64
     = Some (JStr (str "user")).
Proof. vm_compute. repeat split; reflexivity. Qed.






(** ** The message handler *)

Ltac dispatch H :=
  unfold _handle_client_message;
  rewrite (eq_str_true _ _ H);
  repeat match goal with
    | |- context [eq_str (JStr (str ?a)) ?b] =>
        let v := eval vm_compute in (eq_str (JStr (str a)) b) in
        change (eq_str (JStr (str a)) b) with v
    end;
  cbv iota.

Lemma validate_token_run token s :
  _validate_token token s = (dict_contains (auth_tokens (self s)) token, s).
Proof. reflexivity. Qed.


Lemma dict_contains_unhashable {V} (d : gmap (list N) V) k :
  hashable k = false -> dict_contains d k = Raise unhashable_error.
Proof. destruct k; simpl; intros H; try discriminate H; reflexivity. Qed.

Section Handler.
Context (P : platform).
Implicit Types (s : state) (m : gmap (list N) json).

Lemma token_gate s m :
  eq_str (dict_get m "type") "command" = true
  \/ eq_str (dict_get m "type") "system_info" = true ->
  forall r,
    dict_contains (auth_tokens (self s)) (dict_get m "token") = r ->
    r <> Ret true ->
    _handle_client_message P m s
    = (match r with
       | Ret _ => Ret (error_response (str "Invalid or expired token"))
       | Raise e => Raise e
       end, s).
Proof.
  intros [Ht|Ht] r Hr Hne; dispatch Ht;
    unfold bind; rewrite validate_token_run, Hr;
    destruct r as [[|]|e]; try reflexivity; congruence.
Qed.


(** C9 (as the code has it). With a valid token, [system_info] answers a
    [system_info_response] whose fields, besides [type], are exactly
    [hostname], [platform], [python_version] and [current_time]. *)
Theorem system_info_fields s m :
  eq_str (dict_get m "type") "system_info" = true ->
  validates s (dict_get m "token") ->
  let resp := [(str "type", JStr (str "system_info_response"));
               (str "hostname", JStr (gethostname P));
               (str "platform", JStr (sys_platform P));
               (str "python_version", JStr (sys_version P));
               (str "current_time",
                JStr (isoformat_now P (ticks (env s))))] in
  fst (_handle_client_message P m s) = Ret resp
  /\ keys resp = [str "type"; str "hostname"; str "platform";
                  str "python_version"; str "current_time"].
Proof.
  intros Ht Hv resp. subst resp. split; [|reflexivity].
  dispatch Ht. unfold bind. rewrite validate_token_run, Hv. reflexivity.
Qed.


End Handler.



Lemma system_info_fields_witness :
  let resp := [(str "type", JStr (str "system_info_response"));
               (str "hostname", JStr (str "host"));
               (str "platform", JStr (str "linux"));
               (str "python_version", JStr (str "3.11.2"));
               (str "current_time", JStr (str "2024-01-01T00:00:00"))] in
  fst (_handle_client_message Scenario.platform
         (Scenario.request Trace.system_info) Trace.logged_in) = Ret resp
  /\ keys resp = [str "type"; str "hostname"; str "platform";
                  str "python_version"; str "current_time"].
Proof.
  apply (system_info_fields Scenario.platform Trace.logged_in
           (Scenario.request Trace.system_info));
    vm_compute; reflexivity.
Defined.

(** C9 as stated fails: the response has no [version] field; the
    interpreter version is under [python_version]. *)
Lemma system_info_has_no_version_field :
  validates Trace.logged_in
    (dict_get (Scenario.request Trace.system_info) "token")
  /\ exists resp,
       fst (_handle_client_message Scenario.platform
              (Scenario.request Trace.system_info) Trace.logged_in) = Ret resp
       /\ ~ In (str "version") (keys resp)
       /\ In (str "python_version") (keys resp).
Proof.
  split; [vm_compute; reflexivity|].
  eexists. split; [vm_compute; reflexivity|]. split.
  - simpl. intros H. vm_compute in H. intuition discriminate.
  - vm_compute. tauto.
Qed.

(** ** What a computation leaves unchanged *)

Section Frame.
Context {T : Type} (obs : state -> T).

Lemma preserves_ret {A} (a : A) : preserves obs (ret a).
Proof. intros s. reflexivity. Qed.

Lemma preserves_raise {A} e : preserves obs (@raise A e).
Proof. intros s. reflexivity. Qed.

Lemma preserves_lift {A} (r : result A) : preserves obs (lift r).
Proof. intros s. reflexivity. Qed.

Lemma preserves_get_self : preserves obs get_self.
Proof. intros s. reflexivity. Qed.

Lemma preserves_get_env : preserves obs get_env.
Proof. intros s. reflexivity. Qed.

Lemma preserves_bind {A B} (m : M A) (k : A -> M B) :
  preserves obs m -> (forall a, preserves obs (k a)) ->
  preserves obs (bind m k).
Proof.
  intros Hm Hk s. unfold bind. specialize (Hm s).
  destruct (m s) as [[a|e] s1]; simpl in *.
  - rewrite Hk. exact Hm.
  - exact Hm.
Qed.

Lemma preserves_try_except {A} (body : M A) catches handler :
  preserves obs body -> (forall e, preserves obs (handler e)) ->
  preserves obs (try_except body catches handler).
Proof.
  intros Hb Hh s. unfold try_except. specialize (Hb s).
  destruct (body s) as [[a|e] s1]; simpl in *; [exact Hb|].
  destruct (catches e); simpl; [rewrite Hh|]; exact Hb.
Qed.

Lemma preserves_modify_env f :
  (forall s, obs {| self := self s; env := f (env s) |} = obs s) ->
  preserves obs (modify_env f).
Proof. intros H s. apply H. Qed.

Lemma preserves_modify_self f :
  (forall s, obs {| self := f (self s); env := env s |} = obs s) ->
  preserves obs (modify_self f).
Proof. intros H s. apply H. Qed.

End Frame.

Create HintDb frame.

Ltac frame :=
  repeat first
    [ solve [auto with frame nocore]
    | apply preserves_bind; [|intros ?]
    | apply preserves_try_except; [|intros ?]
    | apply preserves_ret
    | apply preserves_raise
    | apply preserves_lift
    | apply preserves_get_self
    | apply preserves_get_env
    | apply preserves_modify_env; intros ?; reflexivity
    | apply preserves_modify_self; intros ?; reflexivity
    | match goal with
      | |- preserves _ (if ?b then _ else _) => destruct b
      | |- preserves _ (match ?x with _ => _ end) => destruct x
      end
    | intros ?; reflexivity ].

Section Registry.
Context (P : platform).

Lemma handle_client_message_registry m :
  preserves registry (_handle_client_message P m).
Proof.
  unfold _handle_client_message, _authenticate, _generate_token,
    _validate_token, _execute_command.
  frame.
Qed.

Lemma send_registry sock frame : preserves registry (send sock frame).
Proof. unfold send. frame. Qed.

Lemma loop_body_registry sock cid r :
  preserves registry (loop_body P sock cid r).
Proof.
  unfold loop_body. frame; try apply handle_client_message_registry;
    try apply send_registry.
Qed.

End Registry.

#[global] Hint Resolve handle_client_message_registry send_registry
  loop_body_registry : frame.

(** ** The per-connection worker *)

Section WorkerFacts.
Context (P : platform).
Implicit Types (s : state) (sock : nat) (addr : list N * Z).

Lemma finally_clause_closes sock cid s :
  connection_closed (snd (finally_clause sock cid s)) sock cid
  /\ outbox (env (snd (finally_clause sock cid s))) = outbox (env s)
  /\ registry (snd (finally_clause sock cid s)) = delete cid (registry s).
Proof.
  unfold connection_closed, registry. simpl. repeat split.
  - set_solver.
  - apply lookup_delete_eq.
  - apply lookup_delete_eq.
Qed.

Lemma guarded_raises sock cid body s e s1 :
  body s = (Raise e, s1) ->
  guarded sock cid body s = (Ret Exited, snd (finally_clause sock cid s1)).
Proof.
  intros H. unfold guarded, bind, try_except. rewrite H. reflexivity.
Qed.

Lemma guarded_looping sock cid body s s1 :
  body s = (Ret Looping, s1) ->
  guarded sock cid body s = (Ret Looping, s1).
Proof.
  intros H. unfold guarded, bind, try_except. rewrite H. reflexivity.
Qed.

(** After [guarded], the state is the body's, or the body's with the
    [finally] clause run on it. *)
Lemma guarded_cases sock cid body s :
  snd (guarded sock cid body s) = snd (body s)
  \/ snd (guarded sock cid body s)
     = snd (finally_clause sock cid (snd (body s))).
Proof.
  unfold guarded, bind, try_except.
  destruct (body s) as [[[|]|e] s1]; simpl; auto.
Qed.

Lemma worker_iteration_raises sock addr r s e s1 :
  running (self s) = true ->
  loop_body P sock (client_id_of addr) r s = (Raise e, s1) ->
  worker_iteration P sock addr r s
  = (Ret Exited, snd (finally_clause sock (client_id_of addr) s1)).
Proof.
  intros Hrun Hbody. unfold worker_iteration.
  apply guarded_raises with (e := e).
  unfold bind, get_self. rewrite Hrun, Hbody. reflexivity.
Qed.

Lemma loop_body_undecodable sock cid data s :
  data <> [] -> utf8_decode data = None ->
  loop_body P sock cid (Recv data) s
  = (Raise (Exc UnicodeDecodeError (str "'utf-8' codec can't decode byte")),
     s).
Proof.
  intros Hne Hdec. unfold loop_body, bind, lift, try_except, bytes_decode.
  rewrite bool_decide_eq_false_2 by exact Hne. rewrite Hdec. reflexivity.
Qed.

(** X12. A frame that is valid UTF-8 and on which [json.loads] raises
    [JSONDecodeError] is answered by one error frame, and the worker goes
    back to [recv]: nothing else changes. *)
Lemma malformed_json_answered sock addr data text e s :
  running (self s) = true ->
  sock ∉ closed (env s) -> sock ∉ broken (env s) ->
  data <> [] ->
  bytes_decode data = Ret text ->
  json_loads P (strip text) = Raise e ->
  is_JSONDecodeError e = true ->
  worker_iteration P sock addr (Recv data) s
  = (Ret Looping,
     {| self := self s;
        env := set_outbox
                 ((sock, error_response (str "Invalid JSON format"))
                    :: outbox (env s)) (env s) |}).
Proof.
  intros Hrun Hc Hb Hne Hdec Hloads Hcls. unfold worker_iteration.
  apply guarded_looping.
  unfold bind, get_self. rewrite Hrun.
  unfold loop_body, bind, lift, try_except.
  rewrite bool_decide_eq_false_2 by exact Hne.
  rewrite Hdec, Hloads, Hcls.
  unfold send, bind, get_env.
  rewrite (bool_decide_eq_false_2 _ Hc), (bool_decide_eq_false_2 _ Hb).
  reflexivity.
Qed.

(** C6, at the frames the code misses. A frame that is not valid UTF-8
    is not parseable as JSON; on it the worker sends nothing and closes
    the connection. *)
Theorem undecodable_frame_closes_connection sock addr data s :
  running (self s) = true ->
  data <> [] ->
  utf8_decode data = None ->
  let r := worker_iteration P sock addr (Recv data) s in
  fst r = Ret Exited
  /\ connection_closed (snd r) sock (client_id_of addr)
  /\ outbox (env (snd r)) = outbox (env s).
Proof.
  intros Hrun Hne Hdec r. subst r.
  rewrite (worker_iteration_raises sock addr _ s _ s Hrun
             (loop_body_undecodable sock _ data s Hne Hdec)).
  destruct (finally_clause_closes sock (client_id_of addr) s) as (Hc & Ho & _).
  auto.
Qed.


End WorkerFacts.

Lemma undecodable_frame_closes_connection_witness :
  let r := worker_iteration Scenario.platform 7 Scenario.peer
             (Recv [0xFF; 10]) Trace.logged_in in
  fst r = Ret Exited
  /\ connection_closed (snd r) 7 (client_id_of Scenario.peer)
  /\ outbox (env (snd r)) = outbox (env Trace.logged_in).
Proof.
  apply (undecodable_frame_closes_connection Scenario.platform 7 Scenario.peer
           [0xFF; 10] Trace.logged_in);
    [reflexivity | discriminate | reflexivity].
Defined.


(** ** The system: invariants of the reachable states *)

Section Invariants.
Context (P : platform).

Lemma flags_clear_delete s s' cid :
  registry s' = delete cid (registry s) -> flags_clear s -> flags_clear s'.
Proof.
  unfold flags_clear, registry. intros Heq H c info Hl.
  rewrite Heq in Hl. apply lookup_delete_Some in Hl as [_ Hl]. eauto.
Qed.

Lemma flags_clear_same s s' :
  registry s' = registry s -> flags_clear s -> flags_clear s'.
Proof.
  unfold flags_clear, registry. intros Heq H c info Hl.
  rewrite Heq in Hl. eauto.
Qed.

Lemma guarded_flags_clear sock cid body s :
  preserves registry body ->
  flags_clear s -> flags_clear (snd (guarded sock cid body s)).
Proof.
  intros Hb Hs.
  destruct (guarded_cases sock cid body s) as [-> | ->].
  - apply (flags_clear_same s); [apply Hb | exact Hs].
  - apply (flags_clear_delete s _ cid); [|exact Hs].
    destruct (finally_clause_closes sock cid (snd (body s))) as (_ & _ & ->).
    rewrite Hb. reflexivity.
Qed.

Lemma worker_iteration_flags_clear sock addr r s :
  flags_clear s -> flags_clear (snd (worker_iteration P sock addr r s)).
Proof.
  unfold worker_iteration. apply guarded_flags_clear. frame.
Qed.

Lemma worker_start_flags_clear sock addr s :
  flags_clear s -> flags_clear (snd (worker_start P sock addr s)).
Proof.
  intros Hs. unfold worker_start, bind at 1 2 3, modify_env, time_now,
               modify_self.
  cbv beta iota.
  apply guarded_flags_clear.
  - frame.
  - unfold flags_clear. simpl. intros c info Hl.
    apply lookup_insert_Some in Hl as [[_ <-] | [_ Hl]]; [reflexivity|].
    exact (Hs c info Hl).
Qed.

Lemma stop_registry : preserves registry stop.
Proof. unfold stop, close. frame. Qed.

Lemma step_flags_clear s s' :
  step P s s' -> flags_clear s -> flags_clear s'.
Proof.
  intros Hstep Hs. destruct Hstep.
  - exact Hs.
  - apply worker_start_flags_clear. exact Hs.
  - apply worker_iteration_flags_clear. exact Hs.
  - exact Hs.
  - apply (flags_clear_same s); [apply stop_registry | exact Hs].
Qed.

Lemma reachable_flags_clear s : reachable P s -> flags_clear s.
Proof.
  unfold reachable. revert s. apply rtc_ind_r.
  - intros c info Hl. vm_compute in Hl. discriminate Hl.
  - intros s s' _ Hstep Hs. exact (step_flags_clear s s' Hstep Hs).
Qed.

(** C8 (as the code has it). In every reachable state the
    [authenticated] flag of every registry entry is false: it is written
    once, at registration, whatever tokens the connection's requests
    carry afterwards. *)
Theorem authenticated_flag_never_set s cid info :
  reachable P s ->
  clients (self s) !! cid = Some info ->
  authenticated info = false.
Proof. intros Hr Hl. exact (reachable_flags_clear s Hr cid info Hl). Qed.

End Invariants.

Lemma queried_reachable : reachable Scenario.platform Trace.queried.
Proof.
  unfold reachable.
  eapply rtc_l.
  { apply (step_start Scenario.platform 3 init_state); reflexivity. }
  eapply rtc_l.
  { apply (step_accept Scenario.platform 7 Scenario.peer Trace.listening).
    - reflexivity.
    - reflexivity.
    - change (closed (env Trace.listening)) with (∅ : gset nat).
      apply not_elem_of_empty. }
  eapply rtc_l.
  { apply (step_recv Scenario.platform 7 Scenario.peer
             (Recv (Scenario.frame Trace.auth_admin)) Trace.connected).
    vm_compute. reflexivity. }
  eapply rtc_l.
  { apply (step_recv Scenario.platform 7 Scenario.peer
             (Recv (Scenario.frame Trace.system_info)) Trace.logged_in).
    vm_compute. reflexivity. }
  apply rtc_refl.
Qed.

Lemma queried_entry :
  clients (self Trace.queried) !! Trace.cid
  = Some {| socket := 7; address := Scenario.peer;
            connected_at := S754_zero false; authenticated := false |}.
Proof. vm_compute. reflexivity. Qed.

Lemma authenticated_flag_never_set_witness :
  authenticated
    {| socket := 7; address := Scenario.peer;
       connected_at := S754_zero false; authenticated := false |} = false.
Proof.
  apply (authenticated_flag_never_set Scenario.platform Trace.queried Trace.cid).
  - exact queried_reachable.
  - exact queried_entry.
Defined.

(** C8 as stated fails: after the scenario the connection has had a request
    handled that carried a token valid in the session table, and the flag
    of its registry entry is false. *)
Lemma authenticated_flag_ignores_valid_token :
  reachable Scenario.platform Trace.queried
  /\ carried_valid_token Trace.queried Trace.cid
  /\ exists info,
       clients (self Trace.queried) !! Trace.cid = Some info
       /\ authenticated info = false.
Proof.
  split; [exact queried_reachable|]. split.
  - exists (Scenario.request Trace.system_info). split.
    + vm_compute. left.
    + vm_compute. reflexivity.
  - eexists. split; [exact queried_entry | reflexivity].
Qed.

(** * Further properties *)

(** ** The command executor, every path *)

Section ExecutorMore.
Context (P : platform).
Implicit Types (s : state) (command : json) (p : process).

Lemma execute_command_self s command :
  self (snd (_execute_command P command s)) = self s.
Proof.
  unfold _execute_command, try_except, bind, get_env, modify_env, lift.
  simpl.
  destruct (popen P _ command) as [p|e]; simpl; [|reflexivity].
  destruct (communicate_timeout p) as [r|e]; simpl; [reflexivity|].
  destruct (is_TimeoutExpired e); simpl; [|reflexivity].
  destruct (kill p) as [[]|e1]; simpl; [|reflexivity].
  destruct (communicate p) as [r|e2]; reflexivity.
Qed.

(** X1. [_execute_command] returns a triple whatever the spawn facility
    does ([Popen], [communicate] or [kill] raising included), hands the
    command to [Popen] exactly once, and leaves the server object as it
    was. *)
Theorem execute_command_never_raises s command :
  (exists out err rc, fst (_execute_command P command s) = Ret (out, err, rc))
  /\ spawned (env (snd (_execute_command P command s)))
     = command :: spawned (env s)
  /\ self (snd (_execute_command P command s)) = self s.
Proof.
  split; [apply execute_command_returns|].
  split; [apply execute_command_spawned | apply execute_command_self].
Qed.

(** X2. An exit code other than 1 in the result is the exit code of a
    process that was spawned and ended by the deadline, and stdout and
    stderr are that process's own. *)
Theorem execute_command_exit_status s command out err rc :
  fst (_execute_command P command s) = Ret (out, err, rc) ->
  rc <> 1%Z ->
  exists p,
    popen P (length (spawned (env s))) command = Ret p
    /\ communicate_timeout p = Ret (out, err)
    /\ returncode p = rc.
Proof.
  unfold _execute_command, try_except, bind, get_env, modify_env, lift.
  simpl.
  destruct (popen P _ command) as [p|e]; simpl.
  - destruct (communicate_timeout p) as [[o e']|e] eqn:Hc; simpl.
    + intros H Hrc. injection H as <- <- <-. exists p. auto.
    + destruct (is_TimeoutExpired e); simpl.
      * destruct (kill p) as [[]|e1]; simpl.
        -- destruct (communicate p) as [r|e2]; simpl;
             intros H Hrc; injection H as _ _ <-; congruence.
        -- intros H Hrc; injection H as _ _ <-; congruence.
      * intros H Hrc; injection H as _ _ <-; congruence.
  - intros H Hrc; injection H as _ _ <-; congruence.
Qed.

(** X3. Once the process is spawned, an exception other than the timeout
    from [communicate(timeout=30)], or any exception from [kill()] or from
    the [communicate()] after it, is reported as exit code 1, with empty
    stdout and the exception text after a fixed prefix as stderr. *)
Theorem execute_command_failure_reported s command p e :
  popen P (length (spawned (env s))) command = Ret p ->
  (communicate_timeout p = Raise e /\ is_TimeoutExpired e = false)
  \/ (timed_out p = true /\ kill p = Raise e)
  \/ (timed_out p = true /\ kill p = Ret tt /\ communicate p = Raise e) ->
  fst (_execute_command P command s)
  = Ret ([], str "Error executing command: " ++ exc_str e, 1%Z).
Proof.
  intros Hp Hcases.
  unfold _execute_command, try_except, bind, get_env, modify_env, lift.
  simpl. rewrite Hp. simpl. unfold timed_out in Hcases.
  destruct Hcases as [[Hc Hno] | [[Ht Hk] | (Ht & Hk & Hc)]].
  - rewrite Hc, Hno. reflexivity.
  - destruct (communicate_timeout p) as [r|e0]; [discriminate Ht|].
    rewrite Ht, Hk. reflexivity.
  - destruct (communicate_timeout p) as [r|e0]; [discriminate Ht|].
    rewrite Ht, Hk, Hc. reflexivity.
Qed.

End ExecutorMore.

Lemma execute_command_exit_status_witness :
  exists p,
    popen Scenario.platform (length (spawned (env init_state)))
      (JStr (str "echo hi")) = Ret p
    /\ communicate_timeout p = Ret (str "hi" ++ [10], [])
    /\ returncode p = 0%Z.
Proof.
  apply (execute_command_exit_status Scenario.platform init_state
           (JStr (str "echo hi")) (str "hi" ++ [10]) [] 0%Z).
  - reflexivity.
  - discriminate.
Defined.

Lemma execute_command_failure_reported_witness :
  fst (_execute_command Cases.binary_platform (JStr (str "cat /bin/ls"))
         init_state)
  = Ret ([], str "Error executing command: "
             ++ str "'utf-8' codec can't decode byte 0xff in position 0",
         1%Z).
Proof.
  apply (execute_command_failure_reported Cases.binary_platform init_state
           (JStr (str "cat /bin/ls")) Cases.binary_process
           (Exc UnicodeDecodeError
              (str "'utf-8' codec can't decode byte 0xff in position 0"))).
  - reflexivity.
  - left. split; reflexivity.
Defined.

(** ** The message handler, the other requests *)

Section HandlerMore.
Context (P : platform).
Implicit Types (s : state) (m : gmap (list N) json).

(** X4. [_handle_client_message] never touches the registry, the running
    flag, the credentials, the listening socket or the state of any socket,
    sends nothing, and leaves the workers and the log of handled requests
    alone: only the session table, the spawned commands, the random draws
    and the clock can change. *)
Theorem handler_leaves_connections_alone m :
  preserves outside_handler (_handle_client_message P m).
Proof.
  unfold _handle_client_message, _authenticate, _generate_token,
    _validate_token, _execute_command.
  frame.
Qed.

(** X5. A message whose type is none of [auth], [command] and
    [system_info] (a missing type included) is answered by an error
    response naming the type, and changes nothing. *)
Theorem unknown_type_answered s m :
  eq_str (dict_get m "type") "auth" = false ->
  eq_str (dict_get m "type") "command" = false ->
  eq_str (dict_get m "type") "system_info" = false ->
  _handle_client_message P m s
  = (Ret (error_response
            (str "Unknown message type: " ++ format_value P (dict_get m "type"))),
     s).
Proof.
  intros Ha Hc Hi. unfold _handle_client_message.
  rewrite Ha, Hc, Hi. reflexivity.
Qed.

(** X6. A [command] request with a valid token and a truthy command runs
    the command once and is answered by a [command_response] carrying the
    executor's stdout, stderr and exit code. *)
Theorem command_request_runs s m :
  eq_str (dict_get m "type") "command" = true ->
  validates s (dict_get m "token") ->
  truthy (dict_get m "command") = true ->
  let run := _execute_command P (dict_get m "command") s in
  exists result,
    fst run = Ret result
    /\ _handle_client_message P m s = (Ret (command_response result), snd run)
    /\ spawned (env (snd run)) = dict_get m "command" :: spawned (env s).
Proof.
  intros Ht Hv Hc run. subst run.
  destruct (execute_command_returns P s (dict_get m "command"))
    as (out & err & rc & Hrun).
  exists (out, err, rc). split; [exact Hrun|]. split.
  - dispatch Ht. unfold bind. rewrite validate_token_run, Hv, Hc.
    change (negb true) with false. cbv beta iota.
    destruct (_execute_command P (dict_get m "command") s) as [r s1].
    simpl in Hrun. subst r. reflexivity.
  - apply execute_command_spawned.
Qed.

(** X7. A [command] request with a valid token whose command is falsy
    (the empty string, 0, an empty list, null, false) is answered "No
    command provided"; nothing is run and nothing changes. *)
Theorem empty_command_rejected s m :
  eq_str (dict_get m "type") "command" = true ->
  validates s (dict_get m "token") ->
  truthy (dict_get m "command") = false ->
  _handle_client_message P m s
  = (Ret (error_response (str "No command provided")), s).
Proof.
  intros Ht Hv Hc. dispatch Ht. unfold bind.
  rewrite validate_token_run, Hv, Hc. reflexivity.
Qed.

(** X8. An [auth] request with an encodable password whose username is
    not a string: a hashable one (absent, a number, a boolean) gets the
    failure response, a list or an object makes the handler raise
    [TypeError]; nothing changes either way. *)
Theorem auth_username_not_a_string s m password :
  eq_str (dict_get m "type") "auth" = true ->
  dict_get m "password" = JStr password ->
  encodable password ->
  (forall u, dict_get m "username" <> JStr u) ->
  _handle_client_message P m s
  = (if hashable (dict_get m "username") then Ret auth_failure
     else Raise unhashable_error, s).
Proof.
  intros Ht Hp [b Hb] Hu. dispatch Ht. unfold bind.
  unfold _authenticate, bind, lift, get_self.
  rewrite Hp. unfold _hash_password, str_encode. rewrite Hb.
  destruct (dict_get m "username") as [| | | |u| |] eqn:E; simpl;
    try reflexivity.
  exfalso. exact (Hu u eq_refl).
Qed.

End HandlerMore.

Lemma unknown_type_answered_witness :
  _handle_client_message Scenario.platform
    (Scenario.request [("token", Scenario.zeros64)]%string) Trace.logged_in
  = (Ret (error_response (str "Unknown message type: " ++ str "None")),
     Trace.logged_in).
Proof.
  apply (unknown_type_answered Scenario.platform Trace.logged_in
           (Scenario.request [("token", Scenario.zeros64)]%string));
    reflexivity.
Defined.

Lemma command_request_runs_witness :
  let run := _execute_command Scenario.platform (JStr (str "echo hi"))
               Trace.logged_in in
  exists result,
    fst run = Ret result
    /\ _handle_client_message Scenario.platform Cases.echo_request Trace.logged_in
       = (Ret (command_response result), snd run)
    /\ spawned (env (snd run))
       = JStr (str "echo hi") :: spawned (env Trace.logged_in).
Proof.
  apply (command_request_runs Scenario.platform Trace.logged_in Cases.echo_request);
    vm_compute; reflexivity.
Defined.

Lemma empty_command_rejected_witness :
  _handle_client_message Scenario.platform
    (<[str "command" := JStr []]> Cases.echo_request) Trace.logged_in
  = (Ret (error_response (str "No command provided")), Trace.logged_in).
Proof.
  apply (empty_command_rejected Scenario.platform Trace.logged_in
           (<[str "command" := JStr []]> Cases.echo_request));
    vm_compute; reflexivity.
Defined.

Lemma auth_username_not_a_string_witness :
  _handle_client_message Scenario.platform
    (<[str "username" := JList [JStr (str "admin")]]>
       (Scenario.request Trace.auth_admin)) init_state
  = (Raise unhashable_error, init_state).
Proof.
  refine (auth_username_not_a_string Scenario.platform init_state
            (<[str "username" := JList [JStr (str "admin")]]>
               (Scenario.request Trace.auth_admin)) (str "admin123") _ _ _ _).
  - reflexivity.
  - reflexivity.
  - eexists. reflexivity.
  - intros u H. vm_compute in H. discriminate H.
Defined.

(** ** Relations the computations maintain *)

Section Maintains.
Context (R : relation state) `{!PreOrder R}.

Lemma maintains_ret {A} (a : A) : maintains R (ret a).
Proof. intros s. reflexivity. Qed.

Lemma maintains_raise {A} e : maintains R (@raise A e).
Proof. intros s. reflexivity. Qed.

Lemma maintains_lift {A} (r : result A) : maintains R (lift r).
Proof. intros s. reflexivity. Qed.

Lemma maintains_get_self : maintains R get_self.
Proof. intros s. reflexivity. Qed.

Lemma maintains_get_env : maintains R get_env.
Proof. intros s. reflexivity. Qed.

Lemma maintains_bind {A B} (m : M A) (k : A -> M B) :
  maintains R m -> (forall a, maintains R (k a)) -> maintains R (bind m k).
Proof.
  intros Hm Hk s. unfold bind. specialize (Hm s).
  destruct (m s) as [[a|e] s1]; simpl in *; [|exact Hm].
  etransitivity; [exact Hm | apply Hk].
Qed.

Lemma maintains_try_except {A} (body : M A) catches handler :
  maintains R body -> (forall e, maintains R (handler e)) ->
  maintains R (try_except body catches handler).
Proof.
  intros Hb Hh s. unfold try_except. specialize (Hb s).
  destruct (body s) as [[a|e] s1]; simpl in *; [exact Hb|].
  destruct (catches e); simpl; [|exact Hb].
  etransitivity; [exact Hb | apply Hh].
Qed.

Lemma maintains_preserves {T A} (obs : state -> T) (m : M A) :
  (forall s s', obs s' = obs s -> R s s') ->
  preserves obs m -> maintains R m.
Proof. intros HR Hm s. apply HR, Hm. Qed.

End Maintains.

Ltac evolve_with known :=
  repeat first
    [ known
    | apply maintains_bind; [solve [auto with typeclass_instances] .. | | intros ?]
    | apply maintains_try_except; [solve [auto with typeclass_instances] .. | | intros ?]
    | apply maintains_ret; solve [auto with typeclass_instances]
    | apply maintains_raise; solve [auto with typeclass_instances]
    | apply maintains_lift; solve [auto with typeclass_instances]
    | apply maintains_get_self; solve [auto with typeclass_instances]
    | apply maintains_get_env; solve [auto with typeclass_instances]
    | match goal with
      | |- maintains _ (if ?b then _ else _) => destruct b
      | |- maintains _ (match ?x with _ => _ end) => destruct x
      end ].

Section WorkerMore.
Context (P : platform).
Implicit Types (s : state) (sock : nat) (addr : list N * Z).

Lemma handle_client_message_sockets m :
  preserves (fun s => (closed (env s), broken (env s), outbox (env s)))
    (_handle_client_message P m).
Proof.
  unfold _handle_client_message, _authenticate, _generate_token,
    _validate_token, _execute_command.
  frame.
Qed.

Lemma guarded_returns sock cid body s :
  exists st, fst (guarded sock cid body s) = Ret st.
Proof.
  unfold guarded, bind, try_except.
  destruct (body s) as [[[|]|e] s1]; simpl; eauto.
Qed.

Lemma guarded_exited sock cid body s :
  fst (guarded sock cid body s) = Ret Exited ->
  connection_closed (snd (guarded sock cid body s)) sock cid.
Proof.
  unfold guarded, bind, try_except.
  destruct (body s) as [[[|]|e] s1]; simpl; try discriminate;
    intros _; apply (finally_clause_closes sock cid s1).
Qed.

Lemma guarded_exit sock cid body s s1 :
  body s = (Ret Exited, s1) ->
  guarded sock cid body s = (Ret Exited, snd (finally_clause sock cid s1)).
Proof.
  intros H. unfold guarded, bind, try_except. rewrite H. reflexivity.
Qed.

Lemma worker_hangup sock addr r s :
  running (self s) = true ->
  r = Recv [] \/ (exists e, r = RecvRaises e) ->
  worker_iteration P sock addr r s
  = (Ret Exited, snd (finally_clause sock (client_id_of addr) s)).
Proof.
  intros Hrun [-> | [e ->]]; unfold worker_iteration.
  - apply guarded_exit. unfold bind, get_self. rewrite Hrun. reflexivity.
  - apply guarded_raises with (e := e).
    unfold bind, get_self. rewrite Hrun. reflexivity.
Qed.

Lemma worker_stopped sock addr r s :
  running (self s) = false ->
  worker_iteration P sock addr r s
  = (Ret Exited, snd (finally_clause sock (client_id_of addr) s)).
Proof.
  intros Hrun. unfold worker_iteration. apply guarded_exit.
  unfold bind, get_self. rewrite Hrun. reflexivity.
Qed.

(** X9. When [recv] returns no data or raises, the worker leaves the
    loop: the socket is closed and the registry entry deleted, nothing is
    sent or handled, and the session table is kept (a token outlives the
    connection that created it). *)
Theorem hangup_ends_worker sock addr r s :
  running (self s) = true ->
  r = Recv [] \/ (exists e, r = RecvRaises e) ->
  let res := worker_iteration P sock addr r s in
  fst res = Ret Exited
  /\ connection_closed (snd res) sock (client_id_of addr)
  /\ outbox (env (snd res)) = outbox (env s)
  /\ handled (env (snd res)) = handled (env s)
  /\ auth_tokens (self (snd res)) = auth_tokens (self s).
Proof.
  intros Hrun Hr res. subst res. rewrite (worker_hangup sock addr r s Hrun Hr).
  destruct (finally_clause_closes sock (client_id_of addr) s) as (Hc & _ & _).
  repeat split; try reflexivity; apply Hc.
Qed.

(** X10. Once the running flag is clear, a worker's next pass ends the
    worker whatever has arrived: the connection is closed, and nothing is
    sent, handled or run. *)
Theorem stopped_server_ends_worker sock addr r s :
  running (self s) = false ->
  let res := worker_iteration P sock addr r s in
  fst res = Ret Exited
  /\ connection_closed (snd res) sock (client_id_of addr)
  /\ outbox (env (snd res)) = outbox (env s)
  /\ handled (env (snd res)) = handled (env s)
  /\ spawned (env (snd res)) = spawned (env s)
  /\ auth_tokens (self (snd res)) = auth_tokens (self s).
Proof.
  intros Hrun res. subst res. rewrite (worker_stopped sock addr r s Hrun).
  destruct (finally_clause_closes sock (client_id_of addr) s) as (Hc & _ & _).
  repeat split; try reflexivity; apply Hc.
Qed.

(** X11. A frame that parses as JSON but is not an object (an array, a
    number, a string, null) ends the connection: the worker sends nothing,
    hands nothing to the handler, closes the socket and deletes the
    registry entry. *)
Theorem non_object_frame_closes_connection sock addr data text v s :
  running (self s) = true ->
  data <> [] ->
  bytes_decode data = Ret text ->
  json_loads P (strip text) = Ret v ->
  (forall d, v <> JDict d) ->
  let res := worker_iteration P sock addr (Recv data) s in
  fst res = Ret Exited
  /\ connection_closed (snd res) sock (client_id_of addr)
  /\ outbox (env (snd res)) = outbox (env s)
  /\ handled (env (snd res)) = handled (env s).
Proof.
  intros Hrun Hne Hdec Hloads Hv res. subst res.
  rewrite (worker_iteration_raises P sock addr _ s
             (Exc AttributeError (str "object has no attribute 'get'")) s Hrun).
  - destruct (finally_clause_closes sock (client_id_of addr) s) as (Hc & _ & _).
    repeat split; try reflexivity; apply Hc.
  - unfold loop_body, bind, lift, try_except.
    rewrite bool_decide_eq_false_2 by exact Hne.
    rewrite Hdec, Hloads.
    destruct v; try reflexivity. exfalso. eapply Hv. reflexivity.
Qed.

Lemma loop_body_request sock cid data text m s :
  data <> [] ->
  bytes_decode data = Ret text ->
  json_loads P (strip text) = Ret (JDict m) ->
  loop_body P sock cid (Recv data) s
  = (do _ <- try_except
               (do response <- _handle_client_message P m;
                send sock response)
               is_JSONDecodeError
               (fun _ => send sock (error_response (str "Invalid JSON format")));
     ret true) (logged cid m s).
Proof.
  intros Hne Hdec Hloads. unfold loop_body, bind, lift, try_except, modify_env.
  rewrite bool_decide_eq_false_2 by exact Hne.
  rewrite Hdec, Hloads. reflexivity.
Qed.

(** X13. A frame that parses to an object, on a usable socket, for which
    the handler returns a response: the worker logs the request, sends
    exactly that response on its own socket and goes back to [recv]. *)
Theorem request_answered sock addr data text m response s s2 :
  running (self s) = true ->
  sock ∉ closed (env s) -> sock ∉ broken (env s) ->
  data <> [] ->
  bytes_decode data = Ret text ->
  json_loads P (strip text) = Ret (JDict m) ->
  _handle_client_message P m (logged (client_id_of addr) m s)
  = (Ret response, s2) ->
  worker_iteration P sock addr (Recv data) s
  = (Ret Looping,
     {| self := self s2;
        env := set_outbox ((sock, response) :: outbox (env s2)) (env s2) |}).
Proof.
  intros Hrun Hc Hb Hne Hdec Hloads Hh. unfold worker_iteration.
  apply guarded_looping.
  unfold bind at 1, get_self. rewrite Hrun.
  unfold bind at 1.
  rewrite (loop_body_request sock _ data text m s Hne Hdec Hloads).
  pose proof (handle_client_message_sockets m (logged (client_id_of addr) m s))
    as Hs.
  rewrite Hh in Hs. simpl in Hs. injection Hs as Hcl Hbr _.
  unfold bind, try_except. rewrite Hh.
  unfold send, bind, get_env. rewrite Hcl, Hbr.
  rewrite (bool_decide_eq_false_2 _ Hc), (bool_decide_eq_false_2 _ Hb).
  reflexivity.
Qed.

(** X14. When the response cannot be sent (socket closed, or peer gone),
    the worker closes the connection, but what the handler did stays done:
    a session it created is in the table, a command it ran has run. *)
Theorem undeliverable_response_keeps_effects
    sock addr data text m response s s2 :
  running (self s) = true ->
  sock ∈ closed (env s) \/ sock ∈ broken (env s) ->
  data <> [] ->
  bytes_decode data = Ret text ->
  json_loads P (strip text) = Ret (JDict m) ->
  _handle_client_message P m (logged (client_id_of addr) m s)
  = (Ret response, s2) ->
  let res := worker_iteration P sock addr (Recv data) s in
  fst res = Ret Exited
  /\ connection_closed (snd res) sock (client_id_of addr)
  /\ outbox (env (snd res)) = outbox (env s)
  /\ auth_tokens (self (snd res)) = auth_tokens (self s2)
  /\ spawned (env (snd res)) = spawned (env s2).
Proof.
  intros Hrun Hcb Hne Hdec Hloads Hh res. subst res.
  pose proof (handle_client_message_sockets m (logged (client_id_of addr) m s))
    as Hs.
  rewrite Hh in Hs. simpl in Hs. injection Hs as Hcl Hbr Hout.
  assert (exists e, loop_body P sock (client_id_of addr) (Recv data) s
                    = (Raise e, s2)) as [e He].
  { rewrite (loop_body_request sock _ data text m s Hne Hdec Hloads).
    unfold bind, try_except. rewrite Hh.
    unfold send, bind, get_env. rewrite Hcl, Hbr.
    destruct (decide (sock ∈ closed (env s))) as [Hin|Hnin].
    - rewrite (bool_decide_eq_true_2 _ Hin). eexists. reflexivity.
    - rewrite (bool_decide_eq_false_2 _ Hnin).
      destruct Hcb as [Hin|Hin]; [contradiction|].
      rewrite (bool_decide_eq_true_2 _ Hin). eexists. reflexivity. }
  rewrite (worker_iteration_raises P sock addr _ s e s2 Hrun He).
  destruct (finally_clause_closes sock (client_id_of addr) s2) as (Hc & _ & _).
  repeat split; try reflexivity; try apply Hc. exact Hout.
Qed.

(** X15. On a usable socket, [_handle_client] registers the connection
    under host:port, with [authenticated] false and the time of the first
    clock read, then sends the welcome frame with the time of the second
    clock read. *)
Theorem welcome_sent sock addr s :
  sock ∉ closed (env s) -> sock ∉ broken (env s) ->
  let res := worker_start P sock addr s in
  fst res = Ret Looping
  /\ clients (self (snd res))
     = <[client_id_of addr :=
           {| socket := sock; address := addr;
              connected_at := time_time P (ticks (env s));
              authenticated := false |}]> (clients (self s))
  /\ workers (env (snd res)) = <[sock := addr]> (workers (env s))
  /\ outbox (env (snd res))
     = (sock, welcome_msg (isoformat_now P (S (ticks (env s)))))
         :: outbox (env s).
Proof.
  intros Hc Hb res. subst res.
  remember (worker_start P sock addr s) as res eqn:E.
  unfold worker_start, bind at 1 2 3, modify_env, time_now, modify_self in E.
  cbv beta iota in E.
  erewrite guarded_looping in E.
  2:{ unfold now_isoformat, send, bind, get_env, modify_env, ret. simpl.
      rewrite (bool_decide_eq_false_2 _ Hc), (bool_decide_eq_false_2 _ Hb).
      reflexivity. }
  subst res. simpl. repeat split; reflexivity.
Qed.

(** X16. When the welcome frame cannot be sent, the connection is closed
    and deregistered at once, and nothing is sent. *)
Theorem welcome_failure_cleans_up sock addr s :
  sock ∈ closed (env s) \/ sock ∈ broken (env s) ->
  let res := worker_start P sock addr s in
  fst res = Ret Exited
  /\ connection_closed (snd res) sock (client_id_of addr)
  /\ outbox (env (snd res)) = outbox (env s).
Proof.
  intros Hcb res. subst res.
  remember (worker_start P sock addr s) as res eqn:E.
  unfold worker_start, bind at 1 2 3, modify_env, time_now, modify_self in E.
  cbv beta iota in E.
  match type of E with
  | _ = guarded sock ?cid ?body ?s0 =>
      assert (exists e s1, body s0 = (Raise e, s1)
                           /\ outbox (env s1) = outbox (env s))
        as (e & s1 & He & Ho)
  end.
  { unfold now_isoformat, send, bind, get_env, modify_env, ret, raise. simpl.
    destruct (decide (sock ∈ closed (env s))) as [Hin|Hnin].
    - rewrite (bool_decide_eq_true_2 _ Hin). eexists _, _.
      split; reflexivity.
    - rewrite (bool_decide_eq_false_2 _ Hnin).
      destruct Hcb as [Hin|Hin]; [contradiction|].
      rewrite (bool_decide_eq_true_2 _ Hin). eexists _, _.
      split; reflexivity. }
  rewrite (guarded_raises _ _ _ _ e s1 He) in E. subst res.
  destruct (finally_clause_closes sock (client_id_of addr) s1) as (Hc & Ho' & _).
  split; [reflexivity|]. split; [exact Hc|]. simpl. exact Ho.
Qed.

(** *** A worker and the other connections *)










(** *** The whole worker *)

Lemma worker_iteration_returns sock addr r s :
  exists st, fst (worker_iteration P sock addr r s) = Ret st.
Proof. apply guarded_returns. Qed.

Lemma worker_iteration_exited sock addr r s :
  fst (worker_iteration P sock addr r s) = Ret Exited ->
  connection_closed (snd (worker_iteration P sock addr r s)) sock
    (client_id_of addr).
Proof. apply guarded_exited. Qed.

Lemma worker_iteration_eof sock addr s :
  fst (worker_iteration P sock addr (Recv []) s) = Ret Exited.
Proof.
  destruct (running (self s)) eqn:Hrun.
  - rewrite worker_hangup; auto.
  - rewrite worker_stopped; auto.
Qed.

Lemma worker_loop_eof sock addr inputs s :
  let res := worker_loop P sock addr (inputs ++ [Recv []]) s in
  fst res = Ret Exited
  /\ connection_closed (snd res) sock (client_id_of addr).
Proof.
  revert s. induction inputs as [|r rest IH]; intros s; simpl.
  - unfold bind.
    pose proof (worker_iteration_eof sock addr s) as He.
    pose proof (worker_iteration_exited sock addr (Recv []) s He) as Hc.
    destruct (worker_iteration P sock addr (Recv []) s) as [st s1].
    simpl in He. subst st. simpl. auto.
  - unfold bind.
    destruct (worker_iteration_returns sock addr r s) as [st Hst].
    pose proof (worker_iteration_exited sock addr r s) as Hc.
    destruct (worker_iteration P sock addr r s) as [st' s1].
    simpl in Hst. subst st'. destruct st.
    + apply IH.
    + simpl. split; [reflexivity|]. apply Hc. reflexivity.
Qed.

(** X18. Whatever requests arrive first, once [recv] returns no data
    [_handle_client] has ended with the socket closed, the registry entry
    deleted and the worker gone: it never raises and never leaves the
    connection registered. *)
Theorem handle_client_cleans_up sock addr inputs s :
  let res := _handle_client P sock addr (inputs ++ [Recv []]) s in
  fst res = Ret Exited
  /\ connection_closed (snd res) sock (client_id_of addr).
Proof.
  unfold _handle_client, bind.
  assert (Hret : exists st, fst (worker_start P sock addr s) = Ret st).
  { unfold worker_start, bind at 1 2 3, modify_env, time_now, modify_self.
    apply guarded_returns. }
  assert (Hex : fst (worker_start P sock addr s) = Ret Exited ->
                connection_closed (snd (worker_start P sock addr s)) sock
                  (client_id_of addr)).
  { unfold worker_start, bind at 1 2 3, modify_env, time_now, modify_self.
    apply guarded_exited. }
  destruct Hret as [st Hst].
  destruct (worker_start P sock addr s) as [st' s1].
  simpl in Hst. subst st'. destruct st.
  - apply worker_loop_eof.
  - simpl. split; [reflexivity|]. apply Hex. reflexivity.
Qed.

End WorkerMore.

(** ** The system: sessions, commands, registry *)

Lemma validates_iff s token :
  validates s token
  <-> exists t, token = JStr t /\ is_Some (auth_tokens (self s) !! t).
Proof.
  unfold validates. destruct token; simpl; split;
    try (intros H; discriminate H);
    try (intros (t & H & _); discriminate H).
  - intros H. injection H as H. apply bool_decide_eq_true_1 in H. eauto.
  - intros (t & H & Hs). injection H as ->. f_equal.
    apply bool_decide_eq_true_2. exact Hs.
Qed.

Lemma hex_digit_char d : d < 16 -> hex_char (hex_digit d) = true.
Proof.
  intros H. unfold hex_digit, hex_char.
  destruct (N.ltb_spec d 10).
  - apply orb_true_iff. left. apply andb_true_iff.
    split; apply N.leb_le; lia.
  - apply orb_true_iff. right. apply andb_true_iff.
    split; apply N.leb_le; lia.
Qed.

Lemma land_15 x : N.land x 0xF < 16.
Proof.
  change 0xF with (N.ones 4). rewrite N.land_ones.
  apply N.mod_lt. discriminate.
Qed.

Lemma hexlify_chars bs : forallb hex_char (hexlify bs) = true.
Proof.
  unfold hexlify. induction bs as [|b bs IH]; simpl; [reflexivity|].
  rewrite !hex_digit_char by apply land_15. exact IH.
Qed.

Lemma next_token_hex64 P s : hex64 (next_token P s).
Proof.
  split; [apply next_token_length | apply hexlify_chars].
Qed.

#[local] Instance sessions_grow_preorder : PreOrder sessions_grow.
Proof.
  split.
  - intros s. unfold sessions_grow. auto.
  - intros s1 s2 s3 (Hc1 & Hk1 & Hn1) (Hc2 & Hk2 & Hn2).
    unfold sessions_grow. split; [congruence|]. split; [auto|].
    intros t v Hl. destruct (Hn2 t v Hl) as [Hl2 | (Hh & u & Hv & Hu)].
    + auto.
    + right. split; [exact Hh|]. exists u. rewrite <- Hc1. auto.
Qed.

Lemma sessions_grow_view s s' :
  session_view s' = session_view s -> sessions_grow s s'.
Proof.
  unfold session_view. intros H. injection H as Ha Hc.
  unfold sessions_grow. rewrite Ha, Hc. auto.
Qed.

#[local] Instance audited_preorder : PreOrder audited.
Proof.
  split.
  - intros s. unfold audited. auto.
  - intros s1 s2 s3 (Hv1 & Hh1 & Hs1) (Hv2 & Hh2 & Hs2).
    unfold audited. split; [auto|]. split; [auto|].
    intros c Hc. destruct (Hs2 c Hc) as [Hc2 | Ha]; [|auto].
    destruct (Hs1 c Hc2) as [Hc1 | (cid & m & Hin & Ht & Hcm & Hv)]; [auto|].
    right. exists cid, m. auto.
Qed.

Lemma audited_view s s' : audit_view s' = audit_view s -> audited s s'.
Proof.
  unfold audit_view. intros H. injection H as Ha Hh Hs.
  unfold audited, authorised, validates. rewrite Ha, Hh, Hs. auto.
Qed.

Section SystemMore.
Context (P : platform).
Implicit Types (s : state) (sock : nat) (addr : list N * Z).

(** *** The session table *)

Lemma authenticate_sessions username password :
  maintains sessions_grow (_authenticate P username password).
Proof.
  intros s.
  destruct (_hash_password password) as [d|e] eqn:Hh.
  2:{ rewrite (authenticate_hash_raises P s _ _ e Hh). reflexivity. }
  destruct (dict_lookup (credentials (self s)) username) as [stored|e] eqn:Hl.
  2:{ unfold _authenticate, bind, lift, get_self. rewrite Hh. cbv beta iota.
      rewrite Hl. reflexivity. }
  destruct (decide (stored = Some d)) as [->|Hne].
  2:{ rewrite (authenticate_failure P s _ _ d stored Hh Hl Hne). reflexivity. }
  rewrite (authenticate_success P s _ _ d Hh Hl).
  unfold sessions_grow. cbn [snd self auth_tokens credentials set_auth_tokens].
  split; [reflexivity|]. split.
  - intros t Ht.
    destruct (decide (next_token P s = t)) as [<-|Hne].
    + rewrite lookup_insert_eq. eauto.
    + rewrite lookup_insert_ne by exact Hne. exact Ht.
  - intros t v Hi.
    apply lookup_insert_Some in Hi as [[<- <-] | [_ Hi]]; [|auto].
    right. split; [apply next_token_hex64|].
    destruct username; simpl in Hl; try discriminate Hl.
    injection Hl as Hl. eauto.
Qed.

Lemma handle_client_message_view m :
  eq_str (dict_get m "type") "auth" = false ->
  preserves session_view (_handle_client_message P m).
Proof.
  intros Ht. unfold _handle_client_message. rewrite Ht.
  unfold _validate_token, _execute_command. frame.
Qed.

Lemma handle_client_message_sessions m :
  maintains sessions_grow (_handle_client_message P m).
Proof.
  destruct (eq_str (dict_get m "type") "auth") eqn:Ht.
  - unfold _handle_client_message. rewrite Ht.
    evolve_with ltac:(apply authenticate_sessions).
  - apply (maintains_preserves _ session_view);
      [apply sessions_grow_view | apply handle_client_message_view, Ht].
Qed.

Lemma send_view {T} (obs : state -> T) sock frame :
  (forall s x, obs {| self := self s; env := set_outbox x (env s) |} = obs s) ->
  preserves obs (send sock frame).
Proof.
  intros H s. unfold send, bind, get_env, raise, modify_env.
  destruct (bool_decide _); [reflexivity|].
  destruct (bool_decide _); [reflexivity|].
  simpl. apply H.
Qed.

Lemma finally_clause_view {T} (obs : state -> T) sock cid :
  (forall h w c x k,
     obs {| self := set_clients c h;
            env := set_workers k (set_closed x w) |}
     = obs {| self := h; env := w |}) ->
  preserves obs (finally_clause sock cid).
Proof.
  intros H s. unfold finally_clause, close, bind, modify_env, modify_self.
  simpl. rewrite H. destruct s; reflexivity.
Qed.

Lemma guarded_maintains R `{!PreOrder R} sock cid body :
  maintains R (finally_clause sock cid) ->
  maintains R body ->
  maintains R (guarded sock cid body).
Proof.
  intros Hf Hb. unfold guarded.
  apply maintains_bind; [apply _| |].
  - apply maintains_try_except; [apply _ | exact Hb |].
    intros e. apply maintains_ret, _.
  - intros [|]; [apply maintains_ret, _|].
    apply maintains_bind; [apply _ | exact Hf |].
    intros _. apply maintains_ret, _.
Qed.

Lemma worker_iteration_maintains R `{!PreOrder R} sock addr r :
  maintains R (finally_clause sock (client_id_of addr)) ->
  maintains R (loop_body P sock (client_id_of addr) r) ->
  maintains R (worker_iteration P sock addr r).
Proof.
  intros Hf Hb. unfold worker_iteration.
  apply guarded_maintains; [apply _ | exact Hf |].
  evolve_with ltac:(exact Hb).
Qed.

Lemma worker_start_maintains R `{!PreOrder R} {T} (obs : state -> T) sock addr :
  (forall s s', obs s' = obs s -> R s s') ->
  (forall h w c x k,
     obs {| self := set_clients c h;
            env := set_workers k (set_closed x w) |}
     = obs {| self := h; env := w |}) ->
  (forall s x, obs {| self := self s; env := set_outbox x (env s) |} = obs s) ->
  (forall s x, obs {| self := self s; env := set_ticks x (env s) |} = obs s) ->
  maintains R (worker_start P sock addr).
Proof.
  intros HR Hfin Hout Htick.
  assert (Hw : forall s k,
             obs {| self := self s; env := set_workers k (env s) |} = obs s).
  { intros s k.
    pose proof (Hfin (self s) (env s) (clients (self s)) (closed (env s)) k)
      as H.
    destruct s as [h w]. destruct h, w. exact H. }
  assert (Hc : forall s c,
             obs {| self := set_clients c (self s); env := env s |} = obs s).
  { intros s c.
    pose proof (Hfin (self s) (env s) c (closed (env s)) (workers (env s)))
      as H.
    destruct s as [h w]. destruct h, w. exact H. }
  unfold worker_start.
  apply maintains_bind; [apply _| |intros _].
  { apply (maintains_preserves _ obs); [exact HR|].
    apply preserves_modify_env. intros s. apply Hw. }
  apply maintains_bind; [apply _| |intros t].
  { apply (maintains_preserves _ obs); [exact HR|].
    intros s. apply Htick. }
  apply maintains_bind; [apply _| |intros _].
  { apply (maintains_preserves _ obs); [exact HR|].
    apply preserves_modify_self. intros s. apply Hc. }
  apply guarded_maintains; [apply _| |].
  { apply (maintains_preserves _ obs); [exact HR|].
    apply finally_clause_view. exact Hfin. }
  apply maintains_bind; [apply _| |intros now].
  { apply (maintains_preserves _ obs); [exact HR|].
    intros s. apply Htick. }
  apply maintains_bind; [apply _| |intros _].
  { apply (maintains_preserves _ obs); [exact HR|].
    apply send_view. exact Hout. }
  apply maintains_ret, _.
Qed.

Lemma loop_body_sessions sock cid r :
  maintains sessions_grow (loop_body P sock cid r).
Proof.
  unfold loop_body.
  evolve_with ltac:(first
    [ apply handle_client_message_sessions
    | apply (maintains_preserves _ session_view);
        [apply sessions_grow_view
        | first [ apply send_view; intros; reflexivity
                | apply preserves_modify_env; intros; reflexivity ] ] ]).
Qed.

Lemma stop_view {T} (obs : state -> T) :
  (forall s b,
     obs {| self := set_running b (self s); env := env s |} = obs s) ->
  (forall s x,
     obs {| self := self s; env := set_closed x (env s) |} = obs s) ->
  preserves obs stop.
Proof.
  intros Hr Hc. unfold stop, close.
  apply preserves_bind;
    [apply preserves_modify_self; intros s; apply Hr | intros _].
  apply preserves_bind; [apply preserves_get_self | intros h].
  apply preserves_bind;
    [apply preserves_modify_env; intros s; apply Hc | intros _].
  destruct (server_socket h);
    [apply preserves_modify_env; intros s; apply Hc | apply preserves_ret].
Qed.

Lemma step_sessions s s' : step P s s' -> sessions_grow s s'.
Proof.
  intros Hstep. destruct Hstep.
  - apply sessions_grow_view. reflexivity.
  - apply (worker_start_maintains _ session_view);
      [apply sessions_grow_view | reflexivity | reflexivity | reflexivity].
  - apply worker_iteration_maintains; [apply _ | |apply loop_body_sessions].
    apply (maintains_preserves _ session_view); [apply sessions_grow_view|].
    apply finally_clause_view. reflexivity.
  - apply sessions_grow_view. reflexivity.
  - apply sessions_grow_view. apply stop_view; reflexivity.
Qed.

Lemma steps_sessions s s' : rtc (step P) s s' -> sessions_grow s s'.
Proof.
  induction 1 as [s | s1 s2 s3 Hstep _ IH]; [reflexivity|].
  etransitivity; [apply step_sessions, Hstep | exact IH].
Qed.

(** X19. No step of the system removes a session: a token that validates
    in some state validates in every later state, whatever the workers and
    [stop] do. *)
Theorem tokens_never_expire s s' token :
  rtc (step P) s s' ->
  validates s token ->
  validates s' token.
Proof.
  intros Hsteps Hv. apply validates_iff in Hv as (t & -> & Hs).
  apply validates_iff. exists t. split; [reflexivity|].
  destruct (steps_sessions s s' Hsteps) as (_ & Hk & _). auto.
Qed.

Lemma default_credentials_users u :
  is_Some (default_credentials !! u) -> u = str "admin" \/ u = str "user".
Proof.
  unfold default_credentials.
  destruct (_hash_password (JStr (str "admin123"))) as [a|];
    destruct (_hash_password (JStr (str "user123"))) as [b|];
    try (rewrite lookup_empty; intros [? H]; discriminate H).
  intros [d Hd].
  apply lookup_insert_Some in Hd as [[<- _] | [_ Hd]]; [auto|].
  apply lookup_insert_Some in Hd as [[<- _] | [_ Hd]]; [auto|].
  rewrite lookup_empty in Hd. discriminate Hd.
Qed.

(** X20. In every reachable state the credential store is the one
    [__init__] installed, every token of the session table is 64 lowercase
    hexadecimal digits, and it maps to the name of one of the two
    registered users. *)
Theorem sessions_well_formed s :
  reachable P s ->
  credentials (self s) = default_credentials
  /\ forall t v,
       auth_tokens (self s) !! t = Some v ->
       hex64 t /\ exists u, v = JStr u /\ (u = str "admin" \/ u = str "user").
Proof.
  intros Hr. destruct (steps_sessions init_state s Hr) as (Hc & _ & Hn).
  split; [exact Hc|].
  intros t v Hl. destruct (Hn t v Hl) as [H0 | (Hh & u & Hv & Hu)].
  - simpl in H0. rewrite lookup_empty in H0. discriminate H0.
  - split; [exact Hh|]. exists u. split; [exact Hv|].
    apply default_credentials_users. exact Hu.
Qed.

(** *** Commands and tokens *)

Lemma handle_client_message_spawn m s :
  let s2 := snd (_handle_client_message P m s) in
  spawned (env s2) = spawned (env s)
  \/ (eq_str (dict_get m "type") "command" = true
      /\ validates s (dict_get m "token")
      /\ spawned (env s2) = dict_get m "command" :: spawned (env s)).
Proof.
  intros s2. subst s2.
  destruct (eq_str (dict_get m "type") "command") eqn:Hc.
  - destruct (dict_contains (auth_tokens (self s)) (dict_get m "token"))
      as [[|]|e] eqn:Hv.
    + destruct (truthy (dict_get m "command")) eqn:Ht.
      * right. split; [reflexivity|]. split; [exact Hv|].
        dispatch Hc. unfold bind. rewrite validate_token_run, Hv, Ht.
        change (negb true) with false. cbv beta iota.
        pose proof (execute_command_spawned P s (dict_get m "command")) as Hs.
        destruct (_execute_command P (dict_get m "command") s)
          as [[[[out err] rc]|e] s1]; exact Hs.
      * left. dispatch Hc. unfold bind. rewrite validate_token_run, Hv, Ht.
        reflexivity.
    + left. rewrite (token_gate P s m (or_introl Hc) _ Hv); [reflexivity|].
      discriminate.
    + left. rewrite (token_gate P s m (or_introl Hc) _ Hv); [reflexivity|].
      discriminate.
  - left.
    assert (Hp : preserves (fun s => spawned (env s))
                   (_handle_client_message P m)).
    { unfold _handle_client_message. rewrite Hc.
      unfold _authenticate, _generate_token, _validate_token. frame. }
    apply Hp.
Qed.

Lemma handle_client_message_handled m :
  preserves (fun s => handled (env s)) (_handle_client_message P m).
Proof.
  unfold _handle_client_message, _authenticate, _generate_token,
    _validate_token, _execute_command.
  frame.
Qed.

Lemma sessions_grow_validates s s' token :
  sessions_grow s s' -> validates s token -> validates s' token.
Proof.
  intros (_ & Hk & _) Hv. apply validates_iff in Hv as (t & -> & Hs).
  apply validates_iff. eauto.
Qed.

Lemma handler_audited cid m s :
  audited s (snd (_handle_client_message P m (logged cid m s))).
Proof.
  pose proof (handle_client_message_sessions m (logged cid m s)) as Hg.
  pose proof (handle_client_message_handled m (logged cid m s)) as Hh.
  pose proof (handle_client_message_spawn m (logged cid m s)) as Hs.
  cbv zeta in Hs. simpl in Hh.
  set (s2 := snd (_handle_client_message P m (logged cid m s))) in *.
  unfold audited. split; [|split].
  - intros token Hv. apply (sessions_grow_validates (logged cid m s)); auto.
  - intros x Hx. rewrite Hh. apply elem_of_cons. auto.
  - intros c Hc. destruct Hs as [Hs | (Ht & Hv & Hs)].
    + left. rewrite Hs in Hc. exact Hc.
    + rewrite Hs in Hc. apply elem_of_cons in Hc as [-> | Hc]; [|auto].
      right. exists cid, m. split; [rewrite Hh; apply elem_of_cons; auto|].
      split; [exact Ht|]. split; [reflexivity|].
      apply (sessions_grow_validates (logged cid m s)); auto.
Qed.

Lemma logged_request_maintains cid m {A} (k : pydict -> M A) :
  (forall response, maintains audited (k response)) ->
  maintains audited
    (do _ <- modify_env
               (fun w => set_handled ((cid, m) :: handled w) w);
     do response <- _handle_client_message P m;
     k response).
Proof.
  intros Hk s. unfold bind, modify_env.
  change {| self := self s;
            env := set_handled ((cid, m) :: handled (env s)) (env s) |}
    with (logged cid m s).
  pose proof (handler_audited cid m s) as Hh.
  destruct (_handle_client_message P m (logged cid m s)) as [[resp|e] s2];
    simpl in *; [|exact Hh].
  etransitivity; [exact Hh | apply Hk].
Qed.

Lemma loop_body_audited sock cid r :
  maintains audited (loop_body P sock cid r).
Proof.
  unfold loop_body.
  evolve_with ltac:(first
    [ apply logged_request_maintains; intros ?
    | apply (maintains_preserves _ audit_view);
        [apply audited_view | apply send_view; intros; reflexivity] ]).
Qed.

Lemma step_audited s s' : step P s s' -> audited s s'.
Proof.
  intros Hstep. destruct Hstep.
  - apply audited_view. reflexivity.
  - apply (worker_start_maintains _ audit_view);
      [apply audited_view | reflexivity | reflexivity | reflexivity].
  - apply worker_iteration_maintains; [apply _ | |apply loop_body_audited].
    apply (maintains_preserves _ audit_view); [apply audited_view|].
    apply finally_clause_view. reflexivity.
  - apply audited_view. reflexivity.
  - apply audited_view. apply stop_view; reflexivity.
Qed.

Lemma steps_audited s s' : rtc (step P) s s' -> audited s s'.
Proof.
  induction 1 as [s | s1 s2 s3 Hstep _ IH]; [reflexivity|].
  etransitivity; [apply step_audited, Hstep | exact IH].
Qed.

(** X21. In every reachable state, every command handed to [Popen] was
    asked for by a logged request of type [command] whose token is in the
    session table. *)
Theorem commands_need_valid_token s command :
  reachable P s ->
  command ∈ spawned (env s) ->
  authorised s command.
Proof.
  intros Hr Hc. destruct (steps_audited init_state s Hr) as (_ & _ & Hs).
  destruct (Hs command Hc) as [H0 | Ha]; [|exact Ha].
  simpl in H0. apply elem_of_nil in H0. contradiction.
Qed.

End SystemMore.

Section RegistryMore.
Context (P : platform).
Implicit Types (s : state) (sock : nat) (addr : list N * Z).

Lemma registered_workers_view s s' :
  connection_view s' = connection_view s ->
  registered_workers s -> registered_workers s'.
Proof.
  unfold connection_view, registered_workers. intros H.
  injection H as -> ->. auto.
Qed.

Lemma registered_workers_finally sock addr s :
  workers (env s) !! sock = Some addr ->
  registered_workers s ->
  registered_workers (snd (finally_clause sock (client_id_of addr) s)).
Proof.
  intros Hw Hs cid info. simpl. intros Hl.
  apply lookup_delete_Some in Hl as [Hne Hl].
  destruct (Hs cid info Hl) as [Hcid Hsock]. split; [exact Hcid|].
  rewrite lookup_delete_ne; [exact Hsock|].
  intros Heq. subst sock. rewrite Hsock in Hw. injection Hw as <-.
  congruence.
Qed.

Lemma registered_workers_guarded sock addr body s :
  preserves connection_view body ->
  workers (env s) !! sock = Some addr ->
  registered_workers s ->
  registered_workers (snd (guarded sock (client_id_of addr) body s)).
Proof.
  intros Hb Hw Hs.
  assert (Hs1 : registered_workers (snd (body s)))
    by (apply (registered_workers_view s); [apply Hb | exact Hs]).
  destruct (guarded_cases sock (client_id_of addr) body s) as [-> | ->];
    [exact Hs1|].
  apply registered_workers_finally; [|exact Hs1].
  pose proof (Hb s) as Hv. unfold connection_view in Hv.
  injection Hv as _ ->. exact Hw.
Qed.

Lemma handle_client_message_connections m :
  preserves connection_view (_handle_client_message P m).
Proof.
  unfold _handle_client_message, _authenticate, _generate_token,
    _validate_token, _execute_command.
  frame.
Qed.

Lemma loop_body_connections sock cid r :
  preserves connection_view (loop_body P sock cid r).
Proof.
  unfold loop_body.
  repeat first
    [ apply handle_client_message_connections
    | apply send_view; intros; reflexivity
    | apply preserves_bind; [|intros ?]
    | apply preserves_try_except; [|intros ?]
    | apply preserves_ret
    | apply preserves_lift
    | apply preserves_modify_env; intros ?; reflexivity
    | match goal with
      | |- preserves _ (if ?b then _ else _) => destruct b
      end ].
Qed.

Lemma step_registered_workers s s' :
  step P s s' -> registered_workers s -> registered_workers s'.
Proof.
  intros Hstep Hs. destruct Hstep as [l s | sock addr s Hrun Hw Hc
                                     | sock addr r s Hw | sock s | s].
  - exact Hs.
  - unfold worker_start, bind at 1 2 3, modify_env, time_now, modify_self.
    cbv beta iota.
    apply registered_workers_guarded.
    + repeat first
        [ apply send_view; intros; reflexivity
        | apply preserves_bind; [|intros ?]
        | apply preserves_ret
        | intros ?; reflexivity ].
    + simpl. apply lookup_insert_eq.
    + intros cid info. simpl. intros Hl.
      apply lookup_insert_Some in Hl as [[<- <-] | [Hne Hl]]; simpl.
      * split; [reflexivity | apply lookup_insert_eq].
      * destruct (Hs cid info Hl) as [Hcid Hsock]. split; [exact Hcid|].
        rewrite lookup_insert_ne; [exact Hsock|].
        intros Heq. subst sock. rewrite Hsock in Hw. discriminate Hw.
  - unfold worker_iteration. apply registered_workers_guarded;
      [|exact Hw | exact Hs].
    apply preserves_bind; [apply preserves_get_self | intros h].
    destruct (running h); [|apply preserves_ret].
    apply preserves_bind; [apply loop_body_connections | intros c].
    apply preserves_ret.
  - exact Hs.
  - apply (registered_workers_view s); [|exact Hs].
    apply stop_view; reflexivity.
Qed.

Lemma reachable_registered_workers s :
  reachable P s -> registered_workers s.
Proof.
  unfold reachable. revert s. apply rtc_ind_r.
  - intros cid info Hl. simpl in Hl. rewrite lookup_empty in Hl.
    discriminate Hl.
  - intros s s' _ Hstep Hs. exact (step_registered_workers s s' Hstep Hs).
Qed.

(** X22. In every reachable state, a registry entry is filed under the
    host:port of its peer address, and the worker of its socket is alive
    and serves that peer. *)
Theorem registered_client_has_worker s cid info :
  reachable P s ->
  clients (self s) !! cid = Some info ->
  cid = client_id_of (address info)
  /\ workers (env s) !! socket info = Some (address info).
Proof. intros Hr Hl. exact (reachable_registered_workers s Hr cid info Hl). Qed.

(** X23. In every reachable state [get_server_info] reports as
    [active_clients] the length of its [clients] list, lists no id twice,
    and lists only ids of peers that a live worker serves. *)
Theorem server_info_lists_live_workers s :
  reachable P s ->
  exists ids,
    get_server_info (self s)
    = [(str "host", JStr (host_addr (self s)));
       (str "port", JInt (port (self s)));
       (str "running", JBool (running (self s)));
       (str "active_clients", JInt (Z.of_nat (length ids)));
       (str "clients", JList (JStr <$> ids))]
    /\ NoDup ids
    /\ forall cid,
         cid ∈ ids ->
         exists sock addr,
           workers (env s) !! sock = Some addr /\ client_id_of addr = cid.
Proof.
  intros Hr. exists (map_to_list (clients (self s))).*1.
  split; [|split].
  - unfold get_server_info. rewrite length_fmap, length_map_to_list.
    reflexivity.
  - apply NoDup_fst_map_to_list.
  - intros cid Hin. apply list_elem_of_fmap in Hin as [[c info] [-> Hin]].
    apply elem_of_map_to_list in Hin. simpl.
    destruct (reachable_registered_workers s Hr c info Hin) as [Hc Hw].
    exists (socket info), (address info). auto.
Qed.

End RegistryMore.

(** *** [stop] *)




(** *** [_hash_password] *)

Lemma be_bytes_length n x : length (SHA256.be_bytes n x) = n.
Proof.
  revert x. induction n as [|n IH]; intros x; simpl; [reflexivity|].
  rewrite length_app, IH. simpl. lia.
Qed.

Lemma round_state st k :
  length (snd st) = 8%nat -> length (snd (SHA256.round st k)) = 8%nat.
Proof.
  destruct st as [win v]. unfold SHA256.round. simpl.
  do 9 (destruct v as [|? v]; try discriminate); reflexivity.
Qed.

Lemma rounds_state ks st :
  length (snd st) = 8%nat ->
  length (snd (fold_left SHA256.round ks st)) = 8%nat.
Proof.
  revert st. induction ks as [|k ks IH]; intros st H; simpl; [exact H|].
  apply IH, round_state, H.
Qed.

Lemma compress_length h block :
  length h = 8%nat -> length (SHA256.compress h block) = 8%nat.
Proof.
  intros H. unfold SHA256.compress.
  pose proof (rounds_state SHA256.K (SHA256.words 16 block, h) H) as Hr.
  destruct (fold_left SHA256.round SHA256.K (SHA256.words 16 block, h))
    as [win v].
  simpl in Hr. rewrite length_map, length_combine, H, Hr. reflexivity.
Qed.

Lemma blocks_length n h bs :
  length h = 8%nat -> length (SHA256.blocks n h bs) = 8%nat.
Proof.
  revert h bs. induction n as [|n IH]; intros h bs H; simpl; [exact H|].
  apply IH, compress_length, H.
Qed.

Lemma words_bytes_length ws :
  length (concat (map (SHA256.be_bytes 4) ws)) = (4 * length ws)%nat.
Proof.
  induction ws as [|w ws IH]; [reflexivity|].
  cbn [map concat]. rewrite length_app, be_bytes_length, IH. simpl. lia.
Qed.

Lemma digest_length msg : length (SHA256.digest msg) = 32%nat.
Proof.
  unfold SHA256.digest. cbv zeta.
  rewrite words_bytes_length, blocks_length; reflexivity.
Qed.

(** X27. [_hash_password] returns 64 lowercase hexadecimal digits, and
    returns at all exactly on the strings that have a UTF-8 encoding. *)
Theorem hash_password_shape password :
  (forall d, _hash_password password = Ret d -> hex64 d)
  /\ (is_ret (_hash_password password) = true
      <-> exists s, password = JStr s /\ encodable s).
Proof.
  split.
  - intros d. unfold _hash_password, str_encode.
    destruct password as [| | | |s| |]; try discriminate.
    destruct (utf8_encode s) as [b|]; [|discriminate].
    intros H. injection H as <-. split.
    + rewrite hexlify_length, digest_length. reflexivity.
    + apply hexlify_chars.
  - unfold _hash_password, str_encode, encodable. split.
    + destruct password as [| | | |s| |]; try discriminate.
      destruct (utf8_encode s) as [b|] eqn:E; [|discriminate].
      intros _. exists s. split; [reflexivity|]. rewrite E. eauto.
    + intros (s & -> & [b Hb]). rewrite Hb. reflexivity.
Qed.

Section Shutdown.
Context (P : platform).




End Shutdown.

(** *** The scenario, continued *)

Lemma logged_in_reachable : reachable Scenario.platform Trace.logged_in.
Proof.
  unfold reachable.
  eapply rtc_l.
  { apply (step_start Scenario.platform 3 init_state); reflexivity. }
  eapply rtc_l.
  { apply (step_accept Scenario.platform 7 Scenario.peer Trace.listening).
    - reflexivity.
    - reflexivity.
    - change (closed (env Trace.listening)) with (∅ : gset nat).
      apply not_elem_of_empty. }
  eapply rtc_l.
  { apply (step_recv Scenario.platform 7 Scenario.peer
             (Recv (Scenario.frame Trace.auth_admin)) Trace.connected).
    vm_compute. reflexivity. }
  apply rtc_refl.
Qed.

Lemma ran_reachable : reachable Scenario.platform Cases.ran.
Proof.
  eapply rtc_r; [exact logged_in_reachable|].
  apply (step_recv Scenario.platform 7 Scenario.peer
           (Recv (Scenario.frame Cases.command)) Trace.logged_in).
  vm_compute. reflexivity.
Qed.

Lemma socket_open (s : state) (k : nat) :
  bool_decide (k ∈ closed (env s)) = false -> k ∉ closed (env s).
Proof. apply bool_decide_eq_false_1. Qed.

Lemma socket_sound (s : state) (k : nat) :
  bool_decide (k ∈ broken (env s)) = false -> k ∉ broken (env s).
Proof. apply bool_decide_eq_false_1. Qed.

Lemma socket_is_closed (s : state) (k : nat) :
  bool_decide (k ∈ closed (env s)) = true -> k ∈ closed (env s).
Proof. apply bool_decide_eq_true_1. Qed.

Lemma socket_is_broken (s : state) (k : nat) :
  bool_decide (k ∈ broken (env s)) = true -> k ∈ broken (env s).
Proof. apply bool_decide_eq_true_1. Qed.

Lemma hangup_ends_worker_witness :
  let res := worker_iteration Scenario.platform 7 Scenario.peer (Recv [])
               Trace.logged_in in
  fst res = Ret Exited
  /\ connection_closed (snd res) 7 (client_id_of Scenario.peer)
  /\ outbox (env (snd res)) = outbox (env Trace.logged_in)
  /\ handled (env (snd res)) = handled (env Trace.logged_in)
  /\ auth_tokens (self (snd res)) = auth_tokens (self Trace.logged_in).
Proof.
  apply (hangup_ends_worker Scenario.platform 7 Scenario.peer (Recv [])
           Trace.logged_in);
    [reflexivity | left; reflexivity].
Defined.

Lemma stopped_server_ends_worker_witness :
  let res := worker_iteration Scenario.platform 7 Scenario.peer
               (Recv (Scenario.frame Trace.system_info)) Cases.stopped in
  fst res = Ret Exited
  /\ connection_closed (snd res) 7 (client_id_of Scenario.peer)
  /\ outbox (env (snd res)) = outbox (env Cases.stopped)
  /\ handled (env (snd res)) = handled (env Cases.stopped)
  /\ spawned (env (snd res)) = spawned (env Cases.stopped)
  /\ auth_tokens (self (snd res)) = auth_tokens (self Cases.stopped).
Proof.
  apply (stopped_server_ends_worker Scenario.platform 7 Scenario.peer
           (Recv (Scenario.frame Trace.system_info)) Cases.stopped).
  reflexivity.
Defined.

Lemma non_object_frame_closes_connection_witness :
  let res := worker_iteration Cases.array_platform 7 Scenario.peer
               (Recv (str "[]" ++ [10])) Trace.logged_in in
  fst res = Ret Exited
  /\ connection_closed (snd res) 7 (client_id_of Scenario.peer)
  /\ outbox (env (snd res)) = outbox (env Trace.logged_in)
  /\ handled (env (snd res)) = handled (env Trace.logged_in).
Proof.
  apply (non_object_frame_closes_connection Cases.array_platform 7 Scenario.peer
           (str "[]" ++ [10]) (str "[]" ++ [10]) (JList []) Trace.logged_in).
  - reflexivity.
  - discriminate.
  - reflexivity.
  - reflexivity.
  - discriminate.
Defined.

Lemma malformed_json_answered_witness :
  worker_iteration Scenario.platform 7 Scenario.peer (Recv Cases.garbage)
    Trace.logged_in
  = (Ret Looping,
     {| self := self Trace.logged_in;
        env := set_outbox
                 ((7%nat, error_response (str "Invalid JSON format"))
                    :: outbox (env Trace.logged_in)) (env Trace.logged_in) |}).
Proof.
  apply (malformed_json_answered Scenario.platform 7 Scenario.peer
           Cases.garbage Cases.garbage
           (Exc JSONDecodeError (str "Expecting value")) Trace.logged_in).
  - reflexivity.
  - apply socket_open. vm_compute. reflexivity.
  - apply socket_sound. vm_compute. reflexivity.
  - discriminate.
  - reflexivity.
  - vm_compute. reflexivity.
  - reflexivity.
Defined.

Lemma request_answered_witness :
  let m := Scenario.request Trace.system_info in
  let h := _handle_client_message Scenario.platform m
             (logged (client_id_of Scenario.peer) m Trace.logged_in) in
  worker_iteration Scenario.platform 7 Scenario.peer
    (Recv (Scenario.frame Trace.system_info)) Trace.logged_in
  = (Ret Looping,
     {| self := self (snd h);
        env := set_outbox
                 ((7%nat,
                   [(str "type", JStr (str "system_info_response"));
                    (str "hostname", JStr (str "host"));
                    (str "platform", JStr (str "linux"));
                    (str "python_version", JStr (str "3.11.2"));
                    (str "current_time", JStr (str "2024-01-01T00:00:00"))])
                    :: outbox (env (snd h))) (env (snd h)) |}).
Proof.
  intros m h.
  apply (request_answered Scenario.platform 7 Scenario.peer
           (Scenario.frame Trace.system_info)
           (Scenario.object_text Trace.system_info ++ [10]) m).
  - reflexivity.
  - apply socket_open. vm_compute. reflexivity.
  - apply socket_sound. vm_compute. reflexivity.
  - discriminate.
  - vm_compute. reflexivity.
  - vm_compute. reflexivity.
  - vm_compute. reflexivity.
Defined.

Lemma undeliverable_response_keeps_effects_witness :
  let m := Scenario.request Cases.command in
  let h := _handle_client_message Scenario.platform m
             (logged (client_id_of Scenario.peer) m Cases.peer_gone) in
  let res := worker_iteration Scenario.platform 7 Scenario.peer
               (Recv (Scenario.frame Cases.command)) Cases.peer_gone in
  fst res = Ret Exited
  /\ connection_closed (snd res) 7 (client_id_of Scenario.peer)
  /\ outbox (env (snd res)) = outbox (env Cases.peer_gone)
  /\ auth_tokens (self (snd res)) = auth_tokens (self (snd h))
  /\ spawned (env (snd res)) = spawned (env (snd h)).
Proof.
  intros m h.
  apply (undeliverable_response_keeps_effects Scenario.platform 7
           Scenario.peer (Scenario.frame Cases.command)
           (Scenario.object_text Cases.command ++ [10]) m
           (command_response (str "hi" ++ [10], [], 0%Z))).
  - reflexivity.
  - right. apply socket_is_broken. vm_compute. reflexivity.
  - discriminate.
  - vm_compute. reflexivity.
  - vm_compute. reflexivity.
  - vm_compute. reflexivity.
Defined.

Lemma welcome_sent_witness :
  let res := worker_start Scenario.platform 7 Scenario.peer Trace.listening in
  fst res = Ret Looping
  /\ clients (self (snd res))
     = <[client_id_of Scenario.peer :=
           {| socket := 7; address := Scenario.peer;
              connected_at := S754_zero false;
              authenticated := false |}]> (clients (self Trace.listening))
  /\ workers (env (snd res))
     = <[7%nat := Scenario.peer]> (workers (env Trace.listening))
  /\ outbox (env (snd res))
     = (7%nat, welcome_msg (str "2024-01-01T00:00:00"))
         :: outbox (env Trace.listening).
Proof.
  apply (welcome_sent Scenario.platform 7 Scenario.peer Trace.listening).
  - apply socket_open. vm_compute. reflexivity.
  - apply socket_sound. vm_compute. reflexivity.
Defined.

Lemma welcome_failure_cleans_up_witness :
  let res := worker_start Scenario.platform 7 Scenario.peer Cases.stopped in
  fst res = Ret Exited
  /\ connection_closed (snd res) 7 (client_id_of Scenario.peer)
  /\ outbox (env (snd res)) = outbox (env Cases.stopped).
Proof.
  apply (welcome_failure_cleans_up Scenario.platform 7 Scenario.peer
           Cases.stopped).
  left. apply socket_is_closed. vm_compute. reflexivity.
Defined.

Lemma tokens_never_expire_witness :
  validates (snd (stop Cases.ran)) (JStr (str Scenario.zeros64)).
Proof.
  apply (tokens_never_expire Scenario.platform Trace.logged_in
           (snd (stop Cases.ran)) (JStr (str Scenario.zeros64))).
  - eapply rtc_l.
    { apply (step_recv Scenario.platform 7 Scenario.peer
               (Recv (Scenario.frame Cases.command)) Trace.logged_in).
      vm_compute. reflexivity. }
    eapply rtc_l; [apply (step_stop Scenario.platform Cases.ran)|].
    apply rtc_refl.
  - vm_compute. reflexivity.
Defined.

Lemma sessions_well_formed_witness :
  credentials (self Cases.ran) = default_credentials
  /\ forall t v,
       auth_tokens (self Cases.ran) !! t = Some v ->
       hex64 t /\ exists u, v = JStr u /\ (u = str "admin" \/ u = str "user").
Proof.
  apply (sessions_well_formed Scenario.platform Cases.ran).
  exact ran_reachable.
Defined.

Lemma commands_need_valid_token_witness :
  authorised Cases.ran (JStr (str "echo hi")).
Proof.
  apply (commands_need_valid_token Scenario.platform Cases.ran
           (JStr (str "echo hi"))).
  - exact ran_reachable.
  - vm_compute. left.
Defined.

Lemma registered_client_has_worker_witness :
  Trace.cid
  = client_id_of
      (address {| socket := 7; address := Scenario.peer;
                  connected_at := S754_zero false; authenticated := false |})
  /\ workers (env Cases.ran)
     !! socket {| socket := 7; address := Scenario.peer;
                  connected_at := S754_zero false; authenticated := false |}
     = Some (address {| socket := 7; address := Scenario.peer;
                        connected_at := S754_zero false;
                        authenticated := false |}).
Proof.
  apply (registered_client_has_worker Scenario.platform Cases.ran Trace.cid).
  - exact ran_reachable.
  - vm_compute. reflexivity.
Defined.

Lemma server_info_lists_live_workers_witness :
  exists ids,
    get_server_info (self Cases.ran)
    = [(str "host", JStr (host_addr (self Cases.ran)));
       (str "port", JInt (port (self Cases.ran)));
       (str "running", JBool (running (self Cases.ran)));
       (str "active_clients", JInt (Z.of_nat (length ids)));
       (str "clients", JList (JStr <$> ids))]
    /\ NoDup ids
    /\ forall cid,
         cid ∈ ids ->
         exists sock addr,
           workers (env Cases.ran) !! sock = Some addr
           /\ client_id_of addr = cid.
Proof.
  apply (server_info_lists_live_workers Scenario.platform Cases.ran).
  exact ran_reachable.
Defined.


(** *** A session, from login to command *)

Section Bearer.
Context (P : platform).

Lemma login_run s m (username password : list N) :
  eq_str (dict_get m "type") "auth" = true ->
  dict_get m "username" = JStr username ->
  dict_get m "password" = JStr password ->
  valid_pair (self s) username password ->
  _handle_client_message P m s
  = (Ret (auth_success (next_token P s)),
     {| self := set_auth_tokens
                  (<[next_token P s := JStr username]> (auth_tokens (self s)))
                  (self s);
        env := set_drawn (drawn (env s) + 32) (env s) |}).
Proof.
  intros Ht Hu Hp [d [Hh Hl]].
  unfold _handle_client_message. rewrite Ht, Hu, Hp. unfold bind.
  rewrite (authenticate_success P s (JStr username) (JStr password) d Hh)
    by (simpl; congruence).
  cbv beta iota. rewrite next_token_truthy. reflexivity.
Qed.

Lemma command_run s m :
  eq_str (dict_get m "type") "command" = true ->
  validates s (dict_get m "token") ->
  truthy (dict_get m "command") = true ->
  exists result,
    _handle_client_message P m s
    = (Ret (command_response result),
       snd (_execute_command P (dict_get m "command") s)).
Proof.
  intros Ht Hv Hc.
  destruct (execute_command_returns P s (dict_get m "command"))
    as (out & err & rc & Hrun).
  exists (out, err, rc).
  dispatch Ht. unfold bind. rewrite validate_token_run, Hv, Hc.
  change (negb true) with false. cbv beta iota.
  destruct (_execute_command P (dict_get m "command") s) as [r s1].
  simpl in Hrun. subst r. reflexivity.
Qed.

(** X28. A token issued by a successful login is accepted in every
    later state of the system, on whatever connection it arrives: a
    [command] request that carries it runs its command. *)
Theorem issued_token_runs_commands_later
    s m (username password : list N) s' m' :
  eq_str (dict_get m "type") "auth" = true ->
  dict_get m "username" = JStr username ->
  dict_get m "password" = JStr password ->
  valid_pair (self s) username password ->
  rtc (step P) (snd (_handle_client_message P m s)) s' ->
  eq_str (dict_get m' "type") "command" = true ->
  dict_get m' "token" = JStr (next_token P s) ->
  truthy (dict_get m' "command") = true ->
  fst (_handle_client_message P m s) = Ret (auth_success (next_token P s))
  /\ exists result,
       _handle_client_message P m' s'
       = (Ret (command_response result),
          snd (_execute_command P (dict_get m' "command") s')).
Proof.
  intros Ht Hu Hp Hvalid Hsteps Ht' Htok Hc.
  rewrite (login_run s m username password Ht Hu Hp Hvalid) in *.
  split; [reflexivity|].
  apply command_run; [exact Ht' | | exact Hc].
  rewrite Htok. apply validates_iff. exists (next_token P s).
  split; [reflexivity|].
  destruct (steps_sessions P _ _ Hsteps) as (_ & Hk & _). apply Hk.
  cbn [snd self auth_tokens set_auth_tokens].
  rewrite lookup_insert_eq. eauto.
Qed.

End Bearer.

Lemma issued_token_runs_commands_later_witness :
  let s' := snd (stop (snd (_handle_client_message Scenario.platform
                              (Scenario.request Trace.auth_admin)
                              Trace.connected))) in
  fst (_handle_client_message Scenario.platform
         (Scenario.request Trace.auth_admin) Trace.connected)
  = Ret (auth_success (next_token Scenario.platform Trace.connected))
  /\ exists result,
       _handle_client_message Scenario.platform Cases.echo_request s'
       = (Ret (command_response result),
          snd (_execute_command Scenario.platform
                 (dict_get Cases.echo_request "command") s')).
Proof.
  intros s'.
  apply (issued_token_runs_commands_later Scenario.platform Trace.connected
           (Scenario.request Trace.auth_admin) (str "admin") (str "admin123")
           s' Cases.echo_request).
  - reflexivity.
  - reflexivity.
  - reflexivity.
  - eexists. split; vm_compute; reflexivity.
  - apply rtc_once. apply step_stop.
  - reflexivity.
  - vm_compute. reflexivity.
  - reflexivity.
Defined.
